(** * Layer traversal, lookup and image metadata of the quantisation harness

    A shallow embedding of [src/lib/utils.py] and of the hook set-up and the
    dispatch of [src/evalnet.py].

    - [PyStr]: the string functions of Python that the code relies on.
    - [Net]: the network as a module tree, the two classification passes as
      the lists they yield, [get_module].
    - [Images]: [get_images] and the sort of its result.
    - [Store]: the network as objects in a store, for the operations whose
      effect on the objects matters: the passes as readers of the store,
      [set_module], the hooks of [get_intermediate].  The passes on the
      store are shown to yield what the passes on the tree yield.
    - [Cli]: the dispatch of [main] over the exceptions of its steps. *)

From Stdlib Require Import List String Ascii ZArith Bool Lia.
From Stdlib Require Import Permutation Sorted.
From stdpp Require Import base option list strings pretty sorting gmap.

(** ** Python values shared by all parts *)

(** The exceptions the modelled code can raise. *)
Inductive PyExn :=
  | AttributeError
  | RuntimeError
  | ValueError
  | IndexError
  | TypeError
  | FileNotFoundError
  | KeyError
  | RecursionError
  | FrameworkError (what : string).

(** The result of a call: a value or a raised exception. *)
Inductive Result (A : Type) :=
  | Ok (a : A)
  | Raise (e : PyExn).
Arguments Ok {A} a.
Arguments Raise {A} e.

#[global] Instance Result_ret : MRet Result := fun A a => Ok a.

#[global] Instance Result_bind : MBind Result := fun A B k r =>
  match r with
  | Ok a => k a
  | Raise e => Raise e
  end.

(** ** Strings *)

(** Python strings are modelled by [string], a sequence of characters with
    codes below 256, compared by code as Python compares code points. *)
Module PyStr.

(** [s.split(sep)] for a one-character separator: the pieces between the
    occurrences of [sep]; never the empty list. *)
Fixpoint split (sep : ascii) (s : string) : list string :=
  match s with
  | EmptyString => [EmptyString]
  | String c rest =>
    if Ascii.eqb c sep then EmptyString :: split sep rest
    else match split sep rest with
         | piece :: pieces => String c piece :: pieces
         | [] => [String c EmptyString]
         end
  end.

(** [c in s] for a character. *)
Fixpoint contains (c : ascii) (s : string) : bool :=
  match s with
  | EmptyString => false
  | String c' rest => Ascii.eqb c' c || contains c rest
  end.

(** The characters below 256 that [str.isspace] accepts, which are the ones
    [s.split()] splits at: tab to carriage return, the four separators
    U+001C to U+001F, space, U+0085 and U+00A0. *)
Definition is_space (c : ascii) : bool :=
  let n := nat_of_ascii c in
  (Nat.leb 9 n && Nat.leb n 13) || (Nat.leb 28 n && Nat.leb n 32)
  || Nat.eqb n 133 || Nat.eqb n 160.

(** [s.split()]: the maximal runs of characters that are not white space. *)
Fixpoint split_ws (s : string) : list string :=
  match s with
  | EmptyString => []
  | String c rest =>
    if is_space c then split_ws rest
    else match rest with
         | EmptyString => [String c EmptyString]
         | String c' _ =>
           if is_space c' then String c EmptyString :: split_ws rest
           else match split_ws rest with
                | w :: ws => String c w :: ws
                | [] => [String c EmptyString]
                end
         end
  end.

Definition digit_value (c : ascii) : option Z :=
  let n := nat_of_ascii c in
  if Nat.leb 48 n && Nat.leb n 57 then Some (Z.of_nat (n - 48)) else None.

(** The digits of a decimal literal as [int] reads them: digits, with single
    underscores allowed between two digits. *)
Fixpoint int_digits (acc : Z) (after_digit : bool) (s : string) : option Z :=
  match s with
  | EmptyString => if after_digit then Some acc else None
  | String c rest =>
    match digit_value c with
    | Some d => int_digits (10 * acc + d) true rest
    | None =>
      if Ascii.eqb c "_" && after_digit then
        match rest with
        | EmptyString => None
        | _ => int_digits acc false rest
        end
      else None
    end
  end.

(** [int(s)] in base ten for a string without white space: an optional
    sign, then the digits.  [None] stands for the [ValueError]. *)
Definition int (s : string) : option Z :=
  match s with
  | String "+" rest => int_digits 0 false rest
  | String "-" rest => Z.opp <$> int_digits 0 false rest
  | _ => int_digits 0 false s
  end.

Fixpoint ends_with (c : ascii) (s : string) : bool :=
  match s with
  | EmptyString => false
  | String c' EmptyString => Ascii.eqb c' c
  | String _ rest => ends_with c rest
  end.

Definition starts_with (c : ascii) (s : string) : bool :=
  match s with
  | String c' _ => Ascii.eqb c' c
  | EmptyString => false
  end.

(** [os.path.join(a, b)] on a POSIX system. *)
Definition path_join (a b : string) : string :=
  if starts_with "/" b then b
  else if String.eqb a EmptyString || ends_with "/" a then a +:+ b
  else a +:+ "/" +:+ b.

(** [s.replace(old, new)] for a non-empty [old]: the occurrences of [old]
    are found from the left and do not overlap.  [skip] counts the
    characters of a found occurrence that are still to be passed over. *)
Fixpoint replace_from (old new : string) (skip : nat) (s : string) : string :=
  match s with
  | EmptyString => EmptyString
  | String c rest =>
    match skip with
    | S k => replace_from old new k rest
    | O =>
      if String.prefix old s
      then new +:+ replace_from old new (String.length old - 1) rest
      else String c (replace_from old new 0 rest)
    end
  end.

(** [s.replace("", new)]: [new] before every character and at the end. *)
Fixpoint replace_empty (new : string) (s : string) : string :=
  match s with
  | EmptyString => new
  | String c rest => new +:+ String c (replace_empty new rest)
  end.

(** [s.replace(old, new)] *)
Definition replace (old new s : string) : string :=
  match old with
  | EmptyString => replace_empty new s
  | _ => replace_from old new 0 s
  end.

(** [str(i)] for a natural number, as an f-string formats it. *)
Definition str_of_nat (i : nat) : string := pretty i.

End PyStr.

(** ** The module tree and the classification passes *)

Module Net.

(** The runtime type of a module, [type(child)].  The classes the source
    names are constructors of their own; every other class is [OtherType]
    with its qualified name.  [type(child) in [...]] compares classes by
    identity, so a subclass of [Conv2d] is an [OtherType]. *)
Inductive ModType :=
  | QuantizableConvRelu
  | ConvReLU2d
  | LinearReLU
  | Identity
  | Dropout
  | MaxPool2d
  | AdaptiveAvgPool2d
  | Conv2d
  | Linear
  | OtherType (qualname : string).

#[global] Instance ModType_eq_dec : EqDecision ModType.
Proof. solve_decision. Defined.

#[local] Unset Elimination Schemes.

(** A module: its type and [_modules], the registered submodules in
    insertion order, each under its name.  The attributes of a module that
    the model knows are its submodules. *)
Inductive Module :=
  mkModule (mtype : ModType) (_modules : list (string * Module)).

#[local] Set Elimination Schemes.

Definition mtype (m : Module) : ModType :=
  match m with mkModule t _ => t end.

Definition _modules (m : Module) : list (string * Module) :=
  match m with mkModule _ ms => ms end.

(** [module.named_children()]: the (name, child) pairs of [_modules] in
    order.  In a tree no object is registered twice and no entry is [None],
    so nothing is skipped. *)
Definition named_children (m : Module) : list (string * Module) :=
  _modules m.

(** [x in types] for a list of classes. *)
Definition type_in (t : ModType) (types : list ModType) : bool :=
  bool_decide (t ∈ types).

Definition seq_leaf_types : list ModType :=
  [QuantizableConvRelu; ConvReLU2d; LinearReLU].

Definition ignore : list ModType :=
  [Identity; Dropout; MaxPool2d; AdaptiveAvgPool2d].

Definition leaves : list ModType := [Conv2d; Linear].

(** [name if parent_name is None else f"{parent_name}.{name}"] *)
Definition full_name (parent_name : option string) (name : string) : string :=
  match parent_name with
  | None => name
  | Some p => p +:+ "." +:+ name
  end.

(** The test of line 46 of utils.py. *)
Definition is_trackable_leaf (child : Module) : bool :=
  (Nat.eqb (length (_modules child)) 0
   || type_in (mtype child) seq_leaf_types)
  && negb (type_in (mtype child) ignore).

(** The generators are embedded as the list of what they yield, in order. *)
Fixpoint iter_trackable_modules_helper_ (module : Module)
    (parent_name : option string) : list (string * Module) :=
  match module with
  | mkModule _ children =>
    flat_map (fun nc : string * Module =>
      let full := full_name parent_name (fst nc) in
      (if negb (type_in (mtype (snd nc)) seq_leaf_types)
       then iter_trackable_modules_helper_ (snd nc) (Some full)
       else [])
      ++ (if is_trackable_leaf (snd nc) then [(full, snd nc)] else []))
    children
  end.

Definition iter_trackable_modules_with_names (module : Module)
  : list (string * Module) :=
  iter_trackable_modules_helper_ module None.

Definition iter_trackable_modules (module : Module) : list Module :=
  map snd (iter_trackable_modules_helper_ module None).

Fixpoint iter_quantisable_modules_helper_ (module : Module)
    (parent_name : option string) : list (string * Module) :=
  match module with
  | mkModule _ children =>
    flat_map (fun nc : string * Module =>
      let full := full_name parent_name (fst nc) in
      iter_quantisable_modules_helper_ (snd nc) (Some full)
      ++ (if type_in (mtype (snd nc)) leaves then [(full, snd nc)] else []))
    children
  end.

Definition iter_quantisable_modules_with_names (module : Module)
  : list (string * Module) :=
  iter_quantisable_modules_helper_ module None.

(** [getattr(cur_mod, s)]: the submodule registered under [s];
    [AttributeError] when there is none. *)
Definition lookup_child (s : string) (m : Module) : option Module :=
  snd <$> find (fun nc : string * Module => String.eqb (fst nc) s)
               (_modules m).

Definition getattr (cur_mod : Module) (s : string) : Result Module :=
  match lookup_child s cur_mod with
  | Some c => Ok c
  | None => Raise AttributeError
  end.

(** [for s in tokens: cur_mod = getattr(cur_mod, s)] *)
Fixpoint getattr_each (cur_mod : Module) (tokens : list string)
  : Result Module :=
  match tokens with
  | [] => Ok cur_mod
  | s :: rest => c ← getattr cur_mod s; getattr_each c rest
  end.

Definition get_module (model : Module) (submodule_key : string)
  : Result Module :=
  let tokens := PyStr.split "." submodule_key in
  getattr_each model tokens.

#[local] Unset Elimination Schemes.

(** The naming discipline of [_modules]: it is a dictionary, so the names of
    the children of one module are pairwise distinct, and a name holds no
    dot (the registration of a submodule refuses one). *)
Inductive wf_names : Module -> Prop :=
  | wf_names_intro t children :
      NoDup (map fst children) ->
      Forall (fun n => PyStr.contains "." n = false) (map fst children) ->
      Forall (fun nc => wf_names (snd nc)) children ->
      wf_names (mkModule t children).

#[local] Set Elimination Schemes.

(** *** Paths and the depth-first walk *)

(** The name the passes build for the node reached from the module passed in
    by the child names [path], below a parent called [parent_name]. *)
Definition path_name (parent_name : option string) (path : list string)
  : string :=
  match parent_name with
  | None => String.concat "." path
  | Some p => p +:+ "." +:+ String.concat "." path
  end.
Arguments path_name : simpl never.

(** [reach descend m path d]: following the child names [path] from [m]
    leads to [d], and every module strictly between [m] and [d] satisfies
    [descend]. *)
Inductive reach (descend : Module -> bool)
  : Module -> list string -> Module -> Prop :=
  | reach_child m n c :
      In (n, c) (named_children m) -> reach descend m [n] c
  | reach_below m n c path d :
      In (n, c) (named_children m) -> descend c = true ->
      reach descend c path d -> reach descend m (n :: path) d.

(** [node_at m path d]: [d] is the proper descendant of [m] at [path]. *)
Definition node_at : Module -> list string -> Module -> Prop :=
  reach (fun _ => true).

(** A module whose type is not one of the fused-operation leaf types: the
    trackable pass recurses into it. *)
Definition not_fused (c : Module) : bool :=
  negb (type_in (mtype c) seq_leaf_types).

(** [tracked_at m path d]: [d] is at [path] below [m] and no module strictly
    between them is a fused-operation leaf. *)
Definition tracked_at : Module -> list string -> Module -> Prop :=
  reach not_fused.

(** Depth-first walk of the proper descendants of [m], children in order,
    the descendants of a node before the node itself; the contents of a node
    are walked only when [descend] holds of it.  Each node comes with its
    path. *)
Fixpoint walk (descend : Module -> bool) (m : Module)
  : list (list string * Module) :=
  match m with
  | mkModule _ children =>
    flat_map (fun nc : string * Module =>
      (if descend (snd nc)
       then map (fun pd => (fst nc :: fst pd, snd pd)) (walk descend (snd nc))
       else [])
      ++ [([fst nc], snd nc)])
    children
  end.

(** The height of a tree, which is the number of nested calls a pass makes
    on it. *)
Fixpoint height (m : Module) : nat :=
  match m with
  | mkModule _ children =>
    S (foldr (fun nc acc => Nat.max (height (snd nc)) acc) 0 children)
  end.


(** *** Sample networks *)

Definition relu : Module := mkModule (OtherType "torch.nn.ReLU") [].

(** A small VGG-like network. *)
Definition vgg_like : Module :=
  mkModule (OtherType "torchvision.models.VGG")
    [("features", mkModule (OtherType "torch.nn.Sequential")
        [("0", mkModule Conv2d []); ("1", relu);
         ("2", mkModule MaxPool2d [])]);
     ("avgpool", mkModule AdaptiveAvgPool2d []);
     ("classifier", mkModule (OtherType "torch.nn.Sequential")
        [("0", mkModule Linear []); ("1", relu);
         ("2", mkModule Dropout [])])]%string.

(** A network with a fused convolution. *)
Definition fused_net : Module :=
  mkModule (OtherType "torch.nn.Sequential")
    [("conv_relu1", mkModule ConvReLU2d
        [("0", mkModule Conv2d []); ("1", relu)]);
     ("fc", mkModule Linear [])]%string.

(** A network that is a single layer. *)
Definition bare_linear : Module := mkModule Linear [].

(** [get_readable_layer_names] *)
Definition get_readable_layer_names (net_name : string)
    (layer_names : list string) : list string :=
  if String.eqb net_name "vgg11" then
    map (fun i => "features " +:+ PyStr.str_of_nat i) (seq 1 8)
    ++ map (fun i => "classifier " +:+ PyStr.str_of_nat i) [1; 2; 3]
  else
    map (fun n => PyStr.replace "conv_relu1 " "" (PyStr.replace "." " " n))
        layer_names.

End Net.


(** ** Image metadata *)

Module Images.

(** The files that can be opened for reading, each with what [readlines]
    returns for it. *)
Definition FileSystem := string -> option (list string).

Record CustomImageData := mkCustomImageData {
  images_metadata : list (string * Z);
  len : nat
}.

(** [CustomImageData.__init__] *)
Definition CustomImageData_init (images_metadata : list (string * Z))
  : CustomImageData :=
  {| images_metadata := images_metadata; len := length images_metadata |}.

(** The sort key of line 133: [f[0].split("/")[-1]]. *)
Definition sort_key (f : string * Z) : string :=
  List.last (PyStr.split "/" (fst f)) EmptyString.

(** [list.sort(key=...)] is a stable sort by [<] on the keys: ascending, and
    elements with equal keys stay in their order.  These two properties fix
    the result, which is computed here by insertion. *)
Section Sort.
Context {A : Type} (key : A -> string).

Fixpoint insert_by_key (x : A) (l : list A) : list A :=
  match l with
  | [] => [x]
  | y :: rest =>
    if String.ltb (key y) (key x) then y :: insert_by_key x rest
    else x :: l
  end.

Definition sort_by_key (l : list A) : list A :=
  foldr insert_by_key [] l.
End Sort.

(** The order of the keys. *)
Definition key_le {A} (key : A -> string) (x y : A) : Prop :=
  String.le (key x) (key y).

(** The body of the loop of lines 129-131 for one line. *)
Definition read_entry (images_dir : option string) (l : string)
  : Result (string * Z) :=
  match PyStr.split_ws l with
  | [file_name; label] =>
    match images_dir with
    | None => Raise TypeError
    | Some dir =>
      match PyStr.int label with
      | Some n => Ok (PyStr.path_join dir file_name, n)
      | None => Raise ValueError
      end
    end
  | _ => Raise ValueError
  end.

Fixpoint read_entries (images_dir : option string) (lines : list string)
  : Result (list (string * Z)) :=
  match lines with
  | [] => Ok []
  | l :: rest =>
    entry ← read_entry images_dir l;
    entries ← read_entries images_dir rest;
    Ok (entry :: entries)
  end.

(** [get_images].  The arguments are what [os.getenv] returned, a string or
    [None]; [open(None)] and [os.path.join(None, ...)] raise [TypeError]. *)
Definition get_images (fs : FileSystem) (images_dir labels_file : option string)
  : Result CustomImageData :=
  match labels_file with
  | None => Raise TypeError
  | Some file =>
    match fs file with
    | None => Raise FileNotFoundError
    | Some lines =>
      images_metadata ← read_entries images_dir lines;
      Ok (CustomImageData_init (sort_by_key sort_key images_metadata))
    end
  end.

(** Lines 94-95 of [get_accuracy] in evalnet.py: the labels, one per line,
    [int(s.split()[1])].  The rest of the function compares them with
    predictions loaded by the framework. *)
Fixpoint read_labels (lines : list string) : Result (list Z) :=
  match lines with
  | [] => Ok []
  | s :: rest =>
    label ← match PyStr.split_ws s with
            | _ :: field :: _ =>
              match PyStr.int field with
              | Some n => Ok n
              | None => Raise ValueError
              end
            | _ => Raise IndexError
            end;
    labels ← read_labels rest;
    Ok (label :: labels)
  end.

Definition get_accuracy_labels (fs : FileSystem) (label_file_name : string)
  : Result (list Z) :=
  match fs label_file_name with
  | None => Raise FileNotFoundError
  | Some lines => read_labels lines
  end.

(** A line that reads as a file name and a label. *)
Definition reads_as_entry (l : string) : Prop :=
  exists file_name label n,
    PyStr.split_ws l = [file_name; label] /\ PyStr.int label = Some n.

(** A labels file that ends with an empty line. *)
Definition labels_blank_end : list string :=
  ["a.jpg 1" +:+ String "010" EmptyString;
   String "010" EmptyString]%string.

(** A labels file in the order of the file names. *)
Definition labels_sorted : list string :=
  ["a.jpg 1" +:+ String "010" EmptyString;
   "b.jpg 7" +:+ String "010" EmptyString]%string.

(** A file system with one file. *)
Definition one_file (path : string) (lines : list string) : FileSystem :=
  fun p => if String.eqb p path then Some lines else None.

Definition labels_a : list string :=
  ["cats/001.jpg 0" +:+ String "010" EmptyString;
   "dogs/001.jpg 1" +:+ String "010" EmptyString;
   "birds/000.jpg 2" +:+ String "010" EmptyString]%string.

(** The same lines, the first two exchanged. *)
Definition labels_b : list string :=
  ["dogs/001.jpg 1" +:+ String "010" EmptyString;
   "cats/001.jpg 0" +:+ String "010" EmptyString;
   "birds/000.jpg 2" +:+ String "010" EmptyString]%string.

Definition labels_c : list string :=
  ["b.jpg 7" +:+ String "010" EmptyString;
   "a.jpg 1_0" +:+ String "010" EmptyString]%string.

End Images.

(** ** The network as objects in a store *)

Module Store.

Import Net.

(** The identity of an object, [id(obj)]. *)
Definition ref := nat.

(** The two closures that [get_intermediate] registers as forward hooks,
    each with the index in [hist_tracker] of the tracker it captured. *)
Inductive Hook :=
  | hist_tracker_input_hook (tracker : nat)
  | hist_tracker_output_hook (tracker : nat).

(** A module object: its class, [_modules] in insertion order, and
    [_forward_hooks] in the order of registration. *)
Record Object := mkObject {
  ob_type : ModType;
  ob_modules : list (string * ref);
  ob_forward_hooks : list Hook
}.

Abbreviation Heap := (gmap nat Object).

(** A computation on the store: it ends with a value or an exception, and
    leaves a store. *)
Definition Py (A : Type) : Type := Heap -> Result A * Heap.

#[global] Instance Py_ret : MRet Py := fun A a h => (Ok a, h).

#[global] Instance Py_bind : MBind Py := fun A B k m h =>
  match m h with
  | (Ok a, h') => k a h'
  | (Raise e, h') => (Raise e, h')
  end.

Definition raise {A} (e : PyExn) : Py A := fun h => (Raise e, h).

(** A computation that looks at the store and does not change it. *)
Definition with_store {A} (f : Heap -> Result A) : Py A := fun h => (f h, h).

(** Reading the object behind a reference.  Every reference a program holds
    is to a live object; for a store that lacks it the model raises an error
    that no run shows. *)
Definition read (r : ref) : Py Object := fun h =>
  match h !! r with
  | Some o => (Ok o, h)
  | None => (Raise (FrameworkError "dangling reference"), h)
  end.

(** Replacing the object behind a reference. *)
Definition write (r : ref) (o : Object) : Py unit := fun h =>
  (Ok (), <[r := o]> h).

(** [type(obj)] *)
Definition type_of (r : ref) : Py ModType :=
  o ← read r; mret (ob_type o).

(** [len(obj._modules)] *)
Definition len_modules (r : ref) : Py nat :=
  o ← read r; mret (length (ob_modules o)).

(** The entries of [_modules] without those whose object came earlier, as
    [named_children] skips an object it has already yielded. *)
Fixpoint skip_seen (seen : list ref) (entries : list (string * ref))
  : list (string * ref) :=
  match entries with
  | [] => []
  | (name, r) :: rest =>
    if bool_decide (r ∈ seen) then skip_seen seen rest
    else (name, r) :: skip_seen (r :: seen) rest
  end.

(** [module.named_children()] *)
Definition named_children (r : ref) : Py (list (string * ref)) :=
  o ← read r; mret (skip_seen [] (ob_modules o)).

(** A [for] loop whose body yields: the yields of all rounds, in order. *)
Fixpoint for_yield {A B} (items : list A) (body : A -> Py (list B))
  : Py (list B) :=
  match items with
  | [] => mret []
  | x :: rest =>
    ys ← body x; zs ← for_yield rest body; mret (ys ++ zs)
  end.

(** The trackable pass.  [depth] is how many nested calls the interpreter
    still allows; beyond it the call raises [RecursionError]. *)
Fixpoint iter_trackable_modules_helper_ (depth : nat) (module : ref)
    (parent_name : option string) : Py (list (string * ref)) :=
  match depth with
  | 0 => raise RecursionError
  | S depth' =>
    children ← named_children module;
    for_yield children (fun nc =>
      let full := full_name parent_name (fst nc) in
      ty ← type_of (snd nc);
      below ← (if negb (type_in ty seq_leaf_types)
               then iter_trackable_modules_helper_ depth' (snd nc) (Some full)
               else mret []);
      n ← len_modules (snd nc);
      ty' ← type_of (snd nc);
      mret (below ++
            (if (Nat.eqb n 0 || type_in ty' seq_leaf_types)
                && negb (type_in ty' ignore)
             then [(full, snd nc)] else [])))
  end.

Definition iter_trackable_modules_with_names (depth : nat) (module : ref)
  : Py (list (string * ref)) :=
  iter_trackable_modules_helper_ depth module None.

Definition iter_trackable_modules (depth : nat) (module : ref)
  : Py (list ref) :=
  ys ← iter_trackable_modules_helper_ depth module None; mret (map snd ys).

(** The quantisable pass. *)
Fixpoint iter_quantisable_modules_helper_ (depth : nat) (module : ref)
    (parent_name : option string) : Py (list (string * ref)) :=
  match depth with
  | 0 => raise RecursionError
  | S depth' =>
    children ← named_children module;
    for_yield children (fun nc =>
      let full := full_name parent_name (fst nc) in
      below ← iter_quantisable_modules_helper_ depth' (snd nc) (Some full);
      ty ← type_of (snd nc);
      mret (below ++
            (if type_in ty leaves then [(full, snd nc)] else [])))
  end.

Definition iter_quantisable_modules_with_names (depth : nat) (module : ref)
  : Py (list (string * ref)) :=
  iter_quantisable_modules_helper_ depth module None.

(** *** Lookup and replacement by dotted name *)

Definition lookup_entry (s : string) (entries : list (string * ref))
  : option ref :=
  snd <$> find (fun e : string * ref => String.eqb (fst e) s) entries.

(** [getattr(cur_mod, s)] *)
Definition getattr (cur_mod : ref) (s : string) : Py ref :=
  o ← read cur_mod;
  match lookup_entry s (ob_modules o) with
  | Some c => mret c
  | None => raise AttributeError
  end.

(** [hasattr(cur_mod, s)] *)
Definition hasattr (cur_mod : ref) (s : string) : Py bool :=
  o ← read cur_mod;
  mret (bool_decide (is_Some (lookup_entry s (ob_modules o)))).

(** [d[s] = value] on an insertion-ordered dictionary: an existing key
    keeps its place, a new key goes to the end. *)
Fixpoint dict_set (s : string) (value : ref) (entries : list (string * ref))
  : list (string * ref) :=
  match entries with
  | [] => [(s, value)]
  | (k, v) :: rest =>
    if String.eqb k s then (k, value) :: rest
    else (k, v) :: dict_set s value rest
  end.

(** [setattr(cur_mod, s, value)] for a module [value]: the entry of
    [_modules] is set. *)
Definition setattr (cur_mod : ref) (s : string) (value : ref) : Py unit :=
  o ← read cur_mod;
  write cur_mod {| ob_type := ob_type o;
                   ob_modules := dict_set s value (ob_modules o);
                   ob_forward_hooks := ob_forward_hooks o |}.

(** [for s in tokens: cur_mod = getattr(cur_mod, s)] *)
Fixpoint getattr_each (cur_mod : ref) (tokens : list string) : Py ref :=
  match tokens with
  | [] => mret cur_mod
  | s :: rest => c ← getattr cur_mod s; getattr_each c rest
  end.

Definition get_module (model : ref) (submodule_key : string) : Py ref :=
  let tokens := PyStr.split "." submodule_key in
  getattr_each model tokens.

Definition set_module (model : ref) (submodule_key : string) (module : ref)
  : Py unit :=
  let tokens := PyStr.split "." submodule_key in
  let sub_tokens := removelast tokens in
  cur_mod ← getattr_each model sub_tokens;
  has ← hasattr cur_mod (List.last tokens EmptyString);
  if negb has then raise RuntimeError
  else setattr cur_mod (List.last tokens EmptyString) module.

(** *** Forward hooks and the histogram trackers *)

(** [module.register_forward_hook(hook)] *)
Definition register_forward_hook (r : ref) (hook : Hook) : Py unit :=
  o ← read r;
  write r {| ob_type := ob_type o;
             ob_modules := ob_modules o;
             ob_forward_hooks := ob_forward_hooks o ++ [hook] |}.

(** [_forward_hooks] of an object of the store. *)
Definition hooks_of (h : Heap) (r : ref) : list Hook :=
  match h !! r with
  | Some o => ob_forward_hooks o
  | None => []
  end.

(** The loop of lines 80-81 of evalnet.py, from index [i] on. *)
Fixpoint register_output_hooks (i : nat) (layers : list ref) : Py unit :=
  match layers with
  | [] => mret ()
  | layer :: rest =>
    _ ← register_forward_hook layer (hist_tracker_output_hook (i + 1));
    register_output_hooks (S i) rest
  end.

Section Trackers.
(** The tensors that flow through the network. *)
Context {Tensor : Type}.

(** Modelled from the spec: [HistogramTracker] of lib/layer_tracker.py,
    which is not among the sources.  The spec calls it a streaming
    accumulator fed by the hooks; it is modelled by the sequence of
    tensors it was updated with, a new one being empty. *)
Definition HistogramTracker : Type := list Tensor.

Definition HistogramTracker_new : HistogramTracker := [].

Definition update (tracker : HistogramTracker) (x : Tensor)
  : HistogramTracker :=
  tracker ++ [x].

(** One call of a module during a forward pass: the module, the tuple of
    its positional inputs, its output. *)
Record Call := mkCall {
  call_module : ref;
  call_input : list Tensor;
  call_output : Tensor
}.

(** The closure [f(module, input, output)] of either hook. *)
Definition run_hook (hook : Hook) (input : list Tensor) (output : Tensor)
    (hist_tracker : list HistogramTracker)
  : Result (list HistogramTracker) :=
  match hook with
  | hist_tracker_input_hook k =>
    match input with
    | x :: _ => Ok (alter (fun t => update t x) k hist_tracker)
    | [] => Raise IndexError
    end
  | hist_tracker_output_hook k =>
    Ok (alter (fun t => update t output) k hist_tracker)
  end.

Fixpoint run_hooks (hooks : list Hook) (input : list Tensor)
    (output : Tensor) (hist_tracker : list HistogramTracker)
  : Result (list HistogramTracker) :=
  match hooks with
  | [] => Ok hist_tracker
  | hook :: rest =>
    hist_tracker' ← run_hook hook input output hist_tracker;
    run_hooks rest input output hist_tracker'
  end.

(** A module, once it has computed its output, calls its forward hooks in
    the order of registration. *)
Definition call_hooks (h : Heap) (c : Call)
    (hist_tracker : list HistogramTracker)
  : Result (list HistogramTracker) :=
  run_hooks (hooks_of h (call_module c)) (call_input c) (call_output c)
            hist_tracker.

Fixpoint forward_calls (h : Heap) (calls : list Call)
    (hist_tracker : list HistogramTracker)
  : Result (list HistogramTracker) :=
  match calls with
  | [] => Ok hist_tracker
  | c :: rest =>
    hist_tracker' ← call_hooks h c hist_tracker;
    forward_calls h rest hist_tracker'
  end.

(** Lines 61-81 of [get_intermediate]: the trackable modules, the
    trackers, the hooks.  [net] is the module that [net.get_net()]
    returns. *)
Definition get_intermediate_hooks (depth : nat) (net : ref)
  : Py (list ref * list HistogramTracker) :=
  modules ← iter_trackable_modules depth net;
  start_layer ← match modules with
                | m :: _ => mret m
                | [] => raise IndexError
                end;
  let output_layers := modules in
  let hist_tracker :=
    replicate (1 + length output_layers) HistogramTracker_new in
  _ ← register_forward_hook start_layer (hist_tracker_input_hook 0);
  _ ← register_output_hooks 0 output_layers;
  mret (modules, hist_tracker).

(** [get_intermediate] up to the histograms: the hooks are set up, then
    the forward passes over the batches make the module calls [calls],
    each firing the hooks of its module.  What is returned is the state of
    the trackers, from which the histograms are written out. *)
Definition get_intermediate (depth : nat) (net : ref) (calls : list Call)
  : Py (list HistogramTracker) :=
  setup ← get_intermediate_hooks depth net;
  with_store (fun h => forward_calls h calls (snd setup)).
(** What the forward passes are expected to leave in the trackers: the
    first positional input of every call of a module, and the output of
    every call of a module, in the order of the calls. *)
Definition first_inputs_to (r : ref) (calls : list Call) : list Tensor :=
  flat_map (fun c => if bool_decide (call_module c = r)
                     then take 1 (call_input c) else []) calls.

Definition outputs_of (r : ref) (calls : list Call) : list Tensor :=
  flat_map (fun c => if bool_decide (call_module c = r)
                     then [call_output c] else []) calls.

(** What one call hands to tracker [k] through the hooks [hooks]. *)
Definition fed (k : nat) (hooks : list Hook) (input : list Tensor)
    (output : Tensor) : list Tensor :=
  flat_map (fun hook =>
    match hook with
    | hist_tracker_input_hook k' => if Nat.eqb k' k then take 1 input else []
    | hist_tracker_output_hook k' => if Nat.eqb k' k then [output] else []
    end) hooks.
End Trackers.

(** The output hooks that registering on [layers], counted from [i], adds to
    the object [r]. *)
Fixpoint output_hooks_on (r : ref) (i : nat) (layers : list ref)
  : list Hook :=
  match layers with
  | [] => []
  | layer :: rest =>
    (if bool_decide (layer = r) then [hist_tracker_output_hook (i + 1)]
     else [])
    ++ output_hooks_on r (S i) rest
  end.

(** *** The store as a tree *)

#[local] Unset Elimination Schemes.

(** [represents h r m]: the objects reachable from [r] in [h] form the tree
    [m]; no object is registered twice in one module. *)
Inductive represents (h : Heap) : ref -> Module -> Prop :=
  | represents_intro r o t children :
      h !! r = Some o ->
      ob_type o = t ->
      NoDup (map snd (ob_modules o)) ->
      Forall2 (fun e nc => fst e = fst nc /\ represents h (snd e) (snd nc))
              (ob_modules o) children ->
      represents h r (mkModule t children).

#[local] Set Elimination Schemes.

(** The yields of a pass on the store and on the tree agree: the same
    names, in the same order, each with the object of that subtree. *)
Definition same_yields (h : Heap) (ys : list (string * ref))
    (ts : list (string * Module)) : Prop :=
  Forall2 (fun e nc => fst e = fst nc /\ represents h (snd e) (snd nc)) ys ts.

(** A computation that leaves every store as it found it. *)
Definition read_only {A} (m : Py A) : Prop := forall h, snd (m h) = h.

(** [only_adds_hooks h h']: the store [h'] has the objects of [h], each
    with its type and its [_modules], and with the forward hooks it had,
    possibly followed by more. *)
Definition only_adds_hooks (h h' : Heap) : Prop :=
  forall r : ref,
    match h !! r with
    | Some o =>
      exists o', h' !! r = Some o' /\ ob_type o' = ob_type o /\
                 ob_modules o' = ob_modules o /\
                 ob_forward_hooks o `prefix_of` ob_forward_hooks o'
    | None => h' !! r = None
    end.

(** [fused_net] in a store: object 0 is the network, 1 the fused
    convolution with its contents 2 and 3, 4 the linear layer; 5 is a module
    outside the network. *)
Definition fused_store : Heap :=
  list_to_map
    [(0, mkObject (OtherType "torch.nn.Sequential")
           [("conv_relu1", 1); ("fc", 4)]%string []);
     (1, mkObject ConvReLU2d [("0", 2); ("1", 3)]%string []);
     (2, mkObject Conv2d [] []);
     (3, mkObject (OtherType "torch.nn.ReLU") [] []);
     (4, mkObject Linear [] []);
     (5, mkObject (OtherType "torch.nn.ReLU") [] [])].

(** [bare_linear] in a store. *)
Definition bare_store : Heap := {[ 0 := mkObject Linear [] [] ]}.

End Store.

(** ** The command line *)

Module Cli.

Import Net Images Store.

(** What [parser.parse_args()] returns; [which] is [None] when no
    subcommand was given. *)
Record Args := mkArgs {
  net_name : string;
  which : option string;
  subset : string;
  ignore_existing : option bool;
  quant_config : string;
  bounds : string
}.

(** What [main] prints. *)
Inductive Printed :=
  | printed_net (module : ref)
  | printed_text (s : string)
  | printed_layer (name : string) (t : ModType)
  | printed_testing (quant_config bounds : string).

(** [CustomImageData(testing_files)] of lines 119 and 126 of evalnet.py:
    [testing_files] is what [get_images] returned, a [CustomImageData]
    already, and becomes the [images_metadata] of a second one. *)
Record ImageGen := mkImageGen {
  gen_images_metadata : CustomImageData;
  gen_len : nat
}.

Definition ImageGen_init (testing_files : CustomImageData) : ImageGen :=
  {| gen_images_metadata := testing_files; gen_len := len testing_files |}.

(** [get_images] as a step of a computation on the store. *)
Definition call_get_images (fs : FileSystem)
    (images_dir labels_file : option string) : Py CustomImageData :=
  with_store (fun _ => get_images fs images_dir labels_file).

(** The loop of lines 139-140 and 142-143: one line per yielded pair. *)
Fixpoint print_layers (layers : list (string * ref)) : Py (list Printed) :=
  match layers with
  | [] => mret []
  | (name, child) :: rest =>
    t ← type_of child;
    lines ← print_layers rest;
    mret (printed_layer name t :: lines)
  end.

Section Main.
(** The parts of the program that are not among the sources, and the
    framework: the environment, the files, the recursion limit, and *)
Context {QuantisableModule Preds : Type}.
Variables
  (getenv : string -> option string)
  (fs : FileSystem)
  (depth : nat)
  (** [get_net] and [CONFIG_SETS], imported from lib.utils, *)
  (get_net : string -> Py QuantisableModule)
  (CONFIG_SETS : string -> string -> Result (list (string * string)))
  (** [net.get_net()], *)
  (net_get_net : QuantisableModule -> ref)
  (** [test_quant] of lib.quantnet, *)
  (test_quant : QuantisableModule -> string -> ImageGen ->
                string -> string -> option bool -> Py unit)
  (** the loop of [test_accuracy] over the batches of the loader, with
      the inference on each, *)
  (predict_batches : QuantisableModule -> ImageGen -> Py (list Preds))
  (** and [np.save] into a file opened for writing. *)
  (save_predictions : string -> list Preds -> Py unit).

(** [test_accuracy] *)
Definition test_accuracy (net : QuantisableModule) (net_name : string)
    (image_gen : ImageGen) : Py unit :=
  all_preds ← predict_batches net image_gen;
  save_predictions ("output/floatpreds_" +:+ net_name +:+ ".npy") all_preds.

(** The loop of lines 133-135. *)
Fixpoint test_configs (net : QuantisableModule) (args : Args)
    (image_gen : ImageGen) (configs : list (string * string))
  : Py (list Printed) :=
  match configs with
  | [] => mret []
  | (quant_config, bounds) :: rest =>
    _ ← test_quant net (net_name args) image_gen quant_config bounds
                    (ignore_existing args);
    lines ← test_configs net args image_gen rest;
    mret (printed_testing quant_config bounds :: lines)
  end.

(** [main].  It returns what it printed.  In the branch of [log-fixed]
    the call [get_images(calib_images_dir)] lacks an argument and raises
    [TypeError]; nothing after it runs. *)
Definition main (args : Args) : Py (list Printed) :=
  let val_images_dir := getenv "VAL_IMAGES" in
  let calib_images_dir := getenv "CALIB_IMAGES" in
  net ← get_net (net_name args);
  if bool_decide (which args = Some "log-fixed"%string) then
    raise TypeError
  else
    let labels_file := getenv "VAL_SUBSET_LIST" in
    testing_files ← call_get_images fs val_images_dir labels_file;
    let image_gen := ImageGen_init testing_files in
    if bool_decide (which args = Some "test-float"%string) then
      _ ← test_accuracy net (net_name args) image_gen;
      mret []
    else if bool_decide (which args = Some "test-fixed"%string) then
      _ ← test_quant net (net_name args) image_gen
                      (quant_config args) (bounds args) (Some false);
      mret []
    else if bool_decide (which args = Some "test-subset-fixed"%string) then
      configs ← with_store (fun _ => CONFIG_SETS (net_name args) (subset args));
      test_configs net args image_gen configs
    else if bool_decide (which args = Some "print-net"%string) then
      tracked ← iter_trackable_modules_with_names depth (net_get_net net);
      lines1 ← print_layers tracked;
      quantised ← iter_quantisable_modules_with_names depth (net_get_net net);
      lines2 ← print_layers quantised;
      mret ([printed_net (net_get_net net);
             printed_text "-- Layers to track:"] ++ lines1
            ++ [printed_text "-- Layers to quantise:"] ++ lines2)
    else
      mret [printed_text "No task selected."].
End Main.

End Cli.

(** * Properties *)

Import Net.

(** ** The module tree *)

(** Induction on a module with the hypothesis for every child. *)
Lemma Module_induction (P : Module -> Prop) :
  (forall t children,
      Forall (fun nc => P (snd nc)) children -> P (mkModule t children)) ->
  forall m, P m.
Proof.
  intros step. fix IH 1. intros [t children]. apply step.
  induction children as [|nc children IHc]; constructor.
  - apply IH.
  - exact IHc.
Qed.

Lemma string_app_assoc (a b c : string) : (a +:+ b) +:+ c = a +:+ b +:+ c.
Proof.
  induction a as [|x a IHa]; [reflexivity|].
  change (String x ((a +:+ b) +:+ c) = String x (a +:+ b +:+ c)).
  by rewrite IHa.
Qed.

(** The name built for a child is the parent name of what lies below it. *)
Lemma path_name_cons parent n path :
  path <> [] ->
  path_name (Some (full_name parent n)) path = path_name parent (n :: path).
Proof.
  intros Hne. destruct path as [|x path]; [done|].
  destruct parent as [p|]; unfold path_name; simpl.
  - by rewrite !string_app_assoc.
  - reflexivity.
Qed.

Lemma path_name_single parent n : path_name parent [n] = full_name parent n.
Proof. by destruct parent. Qed.

Lemma walk_path_nonempty descend m pd :
  In pd (walk descend m) -> fst pd <> [].
Proof.
  destruct m as [t children]. simpl. rewrite in_flat_map.
  intros (nc & _ & Hin). apply in_app_or in Hin as [Hin|[<-|[]]]; [|done].
  destruct (descend (snd nc)); [|done].
  apply in_map_iff in Hin as (pd' & <- & _). done.
Qed.

(** The walk lists exactly the reachable nodes. *)
Lemma walk_reach descend m path d :
  In (path, d) (walk descend m) <-> reach descend m path d.
Proof.
  revert path. induction m as [t children IH] using Module_induction.
  intros path. simpl. rewrite in_flat_map. split.
  - intros ([n c] & Hnc & Hin). simpl in Hin.
    apply in_app_or in Hin as [Hin|[Heq|[]]].
    + destruct (descend c) eqn:Hd; [|done].
      apply in_map_iff in Hin as ([p' d'] & Heq & Hin). simpl in Heq.
      injection Heq as <- <-.
      rewrite List.Forall_forall in IH. apply (IH _ Hnc) in Hin.
      by eapply reach_below.
    + injection Heq as <- <-. by apply reach_child.
  - intros Hr. rewrite List.Forall_forall in IH.
    inversion Hr as [m' n c' Hnc Hm Hp Hc|m' n c' p' d' Hnc Hd Hr' Hm Hp Hc].
    + exists (n, d). split; [done|]. apply in_or_app. right. by left.
    + exists (n, c'). split; [done|]. apply in_or_app. left. simpl.
      rewrite Hd. apply in_map_iff. exists (p', d). split; [done|].
      by apply (IH _ Hnc).
Qed.

Lemma filter_map_snd {A B C} (f : C -> bool) (g : A -> B) (l : list (A * C)) :
  List.filter (fun pd => f (snd pd)) (map (fun pd => (g (fst pd), snd pd)) l)
  = map (fun pd => (g (fst pd), snd pd))
        (List.filter (fun pd => f (snd pd)) l).
Proof.
  induction l as [|[a c] l IHl]; [reflexivity|].
  simpl. rewrite IHl. by destruct (f c).
Qed.

(** Naming the walk of a child below [full_name parent n] is naming the
    walk of the parent with [n] put in front of every path. *)
Lemma name_walk_child descend parent n c (sel : Module -> bool) :
  map (fun pd => (path_name (Some (full_name parent n)) (fst pd), snd pd))
      (List.filter (fun pd => sel (snd pd)) (walk descend c))
  = map (fun pd => (path_name parent (fst pd), snd pd))
      (List.filter (fun pd => sel (snd pd))
         (map (fun pd => (n :: fst pd, snd pd)) (walk descend c))).
Proof.
  rewrite (filter_map_snd sel (cons n)), map_map. simpl.
  apply map_ext_in. intros pd Hin. apply filter_In in Hin as [Hin _].
  f_equal. apply path_name_cons. by eapply walk_path_nonempty.
Qed.

(** What the trackable pass yields, as a selection from the walk. *)
Lemma trackable_helper_walk m parent :
  iter_trackable_modules_helper_ m parent =
  map (fun pd => (path_name parent (fst pd), snd pd))
      (List.filter (fun pd => is_trackable_leaf (snd pd)) (walk not_fused m)).
Proof.
  revert parent. induction m as [t children IH] using Module_induction.
  intros parent. simpl.
  induction children as [|[n c] children IHc]; [reflexivity|].
  apply Forall_cons_iff in IH as [IHhd IHtl]. simpl in *.
  rewrite !List.filter_app, !map_app, <- (IHc IHtl). clear IHc IHtl.
  rewrite <- !app_assoc. f_equal; [|f_equal].
  - unfold not_fused at 1. destruct (negb _) eqn:Hnf; [|reflexivity].
    rewrite IHhd. apply name_walk_child.
  - simpl. destruct (is_trackable_leaf c); [|reflexivity].
    simpl. by rewrite path_name_single.
Qed.

(** What the quantisable pass yields, as a selection from the walk. *)
Lemma quantisable_helper_walk m parent :
  iter_quantisable_modules_helper_ m parent =
  map (fun pd => (path_name parent (fst pd), snd pd))
      (List.filter (fun pd => type_in (mtype (snd pd)) leaves)
         (walk (fun _ => true) m)).
Proof.
  revert parent. induction m as [t children IH] using Module_induction.
  intros parent. simpl.
  induction children as [|[n c] children IHc]; [reflexivity|].
  apply Forall_cons_iff in IH as [IHhd IHtl]. simpl in *.
  rewrite !List.filter_app, !map_app, <- (IHc IHtl). clear IHc IHtl.
  rewrite <- !app_assoc. f_equal; [|f_equal].
  - rewrite IHhd.
    apply (name_walk_child _ _ _ _ (fun d => type_in (mtype d) leaves)).
  - simpl. destruct (type_in (mtype c) leaves); [|reflexivity].
    simpl. by rewrite path_name_single.
Qed.

Lemma height_lt_child t children nc :
  In nc children -> height (snd nc) < height (mkModule t children).
Proof.
  intros Hin. cbn [height]. apply Nat.lt_succ_r.
  induction children as [|c children IH]; [done|]. cbn [foldr].
  destruct Hin as [->|Hin]; [lia|]. specialize (IH Hin). lia.
Qed.

Lemma height_child t children nc depth :
  In nc children -> height (mkModule t children) <= S depth ->
  height (snd nc) <= depth.
Proof.
  intros Hin Hle. pose proof (height_lt_child t children nc Hin). lia.
Qed.

(** A module below another is a smaller tree; so no module lies below
    itself. *)
Lemma reach_height descend m path d :
  reach descend m path d -> height d < height m.
Proof.
  induction 1 as [m n c Hin|m n c path d Hin Hd Hr IH].
  - destruct m as [t children].
    apply (height_lt_child t children (n, c) Hin).
  - destruct m as [t children].
    pose proof (height_lt_child t children (n, c) Hin) as Hlt.
    cbn [snd] in Hlt. lia.
Qed.

Lemma reach_any descend m path d :
  reach descend m path d -> node_at m path d.
Proof.
  induction 1 as [m n c Hin|m n c path d Hin Hd Hr IH].
  - by apply reach_child.
  - by eapply reach_below.
Qed.

Lemma is_trackable_leaf_spec d :
  is_trackable_leaf d = true <->
  (_modules d = [] \/ mtype d ∈ seq_leaf_types) /\ mtype d ∉ ignore.
Proof.
  unfold is_trackable_leaf, type_in.
  rewrite andb_true_iff, orb_true_iff, negb_true_iff, Nat.eqb_eq.
  rewrite bool_decide_eq_true, bool_decide_eq_false.
  by rewrite length_zero_iff_nil.
Qed.

Lemma type_in_spec t types : type_in t types = true <-> t ∈ types.
Proof. unfold type_in. apply bool_decide_eq_true. Qed.



Lemma fused_not_ignored t : t ∈ seq_leaf_types -> t ∉ ignore.
Proof.
  rewrite <- !type_in_spec. destruct t; vm_compute; congruence.
Qed.

Lemma leaves_spec t : t ∈ leaves <-> t = Conv2d \/ t = Linear.
Proof.
  unfold leaves. rewrite !elem_of_cons, elem_of_nil. tauto.
Qed.

(** Membership in what the trackable pass yields. *)
Lemma trackable_helper_In m parent name d :
  In (name, d) (iter_trackable_modules_helper_ m parent) <->
  exists path,
    tracked_at m path d /\ name = path_name parent path /\
    (_modules d = [] \/ mtype d ∈ seq_leaf_types) /\ mtype d ∉ ignore.
Proof.
  rewrite trackable_helper_walk, in_map_iff. split.
  - intros ([path d'] & Heq & Hin). simpl in Heq. injection Heq as <- ->.
    apply filter_In in Hin as [Hin Hleaf]. simpl in Hleaf.
    exists path. split; [by apply walk_reach|]. split; [done|].
    by apply is_trackable_leaf_spec.
  - intros (path & Hr & -> & Hleaf). exists (path, d). split; [done|].
    apply filter_In. split; [by apply walk_reach|].
    by apply is_trackable_leaf_spec.
Qed.

(** Membership in what the quantisable pass yields. *)
Lemma quantisable_helper_In m parent name d :
  In (name, d) (iter_quantisable_modules_helper_ m parent) <->
  exists path,
    node_at m path d /\ name = path_name parent path /\ mtype d ∈ leaves.
Proof.
  rewrite quantisable_helper_walk, in_map_iff. split.
  - intros ([path d'] & Heq & Hin). simpl in Heq. injection Heq as <- ->.
    apply filter_In in Hin as [Hin Hleaf]. simpl in Hleaf.
    exists path. split; [by apply walk_reach|]. split; [done|].
    by apply type_in_spec.
  - intros (path & Hr & -> & Hleaf). exists (path, d). split; [done|].
    apply filter_In. split; [by apply walk_reach|].
    by apply type_in_spec.
Qed.



(** C2, as stated, fails at the root: a network that is one childless
    module of a type that is not excluded has no child modules, and the pass
    yields nothing. *)
Lemma C2_root_not_yielded :
  (_modules relu = [] \/ mtype relu ∈ seq_leaf_types) /\
  (mtype relu ∉ ignore) /\
  iter_trackable_modules_helper_ relu None = [].
Proof.
  split; [by left|]. split; [|reflexivity].
  rewrite <- type_in_spec. vm_compute. discriminate.
Qed.

(** C2, amended: the trackable pass yields [(name, d)] exactly for the
    modules [d] below the module passed in that it reaches without entering
    a fused-operation leaf, that have no child modules or are a fused leaf,
    and whose type is not excluded; [name] is the dotted path.  A fused leaf
    is yielded and nothing inside it is: a child of a fused type contributes
    itself alone, whatever it contains.  The module passed in is never
    yielded. *)
Theorem C2_trackable_yields :
  (forall root parent name d,
      In (name, d) (iter_trackable_modules_helper_ root parent) <->
      exists path,
        tracked_at root path d /\ name = path_name parent path /\
        (_modules d = [] \/ mtype d ∈ seq_leaf_types) /\ mtype d ∉ ignore)
  /\
  (forall t n c parent,
      mtype c ∈ seq_leaf_types ->
      iter_trackable_modules_helper_ (mkModule t [(n, c)]) parent
      = [(full_name parent n, c)])
  /\
  (forall root parent name,
      ~ In (name, root) (iter_trackable_modules_helper_ root parent)).
Proof.
  split; [apply trackable_helper_In|]. split.
  - intros t n c parent Hty. simpl.
    assert (Hin : type_in (mtype c) seq_leaf_types = true)
      by by apply type_in_spec.
    rewrite Hin. simpl.
    assert (Hleaf : is_trackable_leaf c = true).
    { apply is_trackable_leaf_spec. split; [by right|].
      by apply fused_not_ignored. }
    by rewrite Hleaf.
  - intros root parent name Hin.
    apply trackable_helper_In in Hin as (path & Hr & _).
    apply reach_height in Hr. lia.
Qed.

(** C2 on [fused_net]: the fused convolution is yielded, and it alone for
    the network that holds nothing else. *)
Lemma C2_trackable_yields_witness :
  In ("conv_relu1"%string, mkModule ConvReLU2d
        [("0"%string, mkModule Conv2d []); ("1"%string, relu)])
     (iter_trackable_modules_helper_ fused_net None)
  /\ iter_trackable_modules_helper_
       (mkModule (OtherType "torch.nn.Sequential")
          [("conv_relu1"%string, mkModule ConvReLU2d
              [("0"%string, mkModule Conv2d []); ("1"%string, relu)])])
       None
     = [("conv_relu1"%string, mkModule ConvReLU2d
           [("0"%string, mkModule Conv2d []); ("1"%string, relu)])].
Proof.
  split.
  - apply (proj1 C2_trackable_yields).
    exists ["conv_relu1"%string]. split.
    + apply reach_child. simpl. by left.
    + split; [reflexivity|]. split.
      * right. by apply type_in_spec.
      * apply fused_not_ignored. by apply type_in_spec.
  - apply (proj1 (proj2 C2_trackable_yields)). by apply type_in_spec.
Defined.

(** C3, as stated, fails at the root: in a network that is a single
    [Linear] layer the root is a node of type [Linear], and the pass yields
    nothing. *)
Lemma C3_root_not_yielded :
  mtype bare_linear = Linear /\
  iter_quantisable_modules_helper_ bare_linear None = [].
Proof. by split. Qed.

(** C3, amended: the quantisable pass yields [(name, d)] exactly for the
    modules [d] below the module passed in whose type is [Conv2d] or
    [Linear]; [name] is the dotted path.  Nothing is asked of the modules on
    the way nor of the children of [d]: every module below the root is
    tested.  The module passed in is never yielded. *)
Theorem C3_quantisable_yields :
  (forall root parent name d,
      In (name, d) (iter_quantisable_modules_helper_ root parent) <->
      exists path,
        node_at root path d /\ name = path_name parent path /\
        (mtype d = Conv2d \/ mtype d = Linear))
  /\
  (forall root parent name,
      ~ In (name, root) (iter_quantisable_modules_helper_ root parent)).
Proof.
  split.
  - intros root parent name d.
    rewrite quantisable_helper_In. by setoid_rewrite leaves_spec.
  - intros root parent name Hin.
    apply quantisable_helper_In in Hin as (path & Hr & _).
    apply reach_height in Hr. lia.
Qed.

(** C5: each pass yields, in order, the named selection of a depth-first
    walk of the modules below the root (children in order, what lies below a
    node before the node): the trackable pass walks without entering fused
    leaves and selects by the leaf test, the quantisable pass walks
    everything and selects [Conv2d] and [Linear].  The name of a node is its
    path joined with dots. *)
Theorem C5_passes_walk_depth_first root :
  iter_trackable_modules_with_names root
  = map (fun pd => (String.concat "." (fst pd), snd pd))
      (List.filter (fun pd => is_trackable_leaf (snd pd))
         (walk not_fused root))
  /\
  iter_quantisable_modules_with_names root
  = map (fun pd => (String.concat "." (fst pd), snd pd))
      (List.filter (fun pd => type_in (mtype (snd pd)) leaves)
         (walk (fun _ => true) root)).
Proof.
  split.
  - apply (trackable_helper_walk root None).
  - apply (quantisable_helper_walk root None).
Qed.

(** The walk and the two passes on [fused_net]: what lies in the fused
    convolution is walked before it, and the trackable pass stays out of
    it. *)
Example walk_fused_net :
  walk (fun _ => true) fused_net
  = [(["conv_relu1"; "0"], mkModule Conv2d []);
     (["conv_relu1"; "1"], relu);
     (["conv_relu1"], mkModule ConvReLU2d
        [("0", mkModule Conv2d []); ("1", relu)]);
     (["fc"], mkModule Linear [])]%string.
Proof. reflexivity. Qed.

Example quantisable_fused_net :
  iter_quantisable_modules_with_names fused_net
  = [("conv_relu1.0", mkModule Conv2d []); ("fc", mkModule Linear [])]%string.
Proof. reflexivity. Qed.

Example trackable_vgg_like :
  iter_trackable_modules_with_names vgg_like
  = [("features.0", mkModule Conv2d []); ("features.1", relu);
     ("classifier.0", mkModule Linear []); ("classifier.1", relu)]%string.
Proof. reflexivity. Qed.

(** *** Names and lookup *)

Lemma split_no_sep sep s :
  PyStr.contains sep s = false -> PyStr.split sep s = [s].
Proof.
  induction s as [|c s IHs]; [reflexivity|].
  simpl. intros Hc. apply orb_false_iff in Hc as [Hc Hs].
  by rewrite Hc, (IHs Hs).
Qed.

Lemma split_app_sep sep s rest :
  PyStr.contains sep s = false ->
  PyStr.split sep (s +:+ String sep rest) = s :: PyStr.split sep rest.
Proof.
  induction s as [|c s IHs]; intros Hc.
  - change (EmptyString +:+ String sep rest) with (String sep rest).
    simpl. by rewrite Ascii.eqb_refl.
  - simpl in Hc. apply orb_false_iff in Hc as [Hc Hs].
    change (String c s +:+ String sep rest)
      with (String c (s +:+ String sep rest)).
    simpl. by rewrite Hc, (IHs Hs).
Qed.

(** Splitting a dotted name at the dots gives the path back. *)
Lemma split_concat path :
  path <> [] ->
  Forall (fun n => PyStr.contains "." n = false) path ->
  PyStr.split "." (String.concat "." path) = path.
Proof.
  induction path as [|n path IH]; [done|]. intros _ Hall.
  apply Forall_cons_iff in Hall as [Hn Hall].
  destruct path as [|n' path]; [by apply split_no_sep|].
  change (String.concat "." (n :: n' :: path))
    with (n +:+ String "." (String.concat "." (n' :: path))).
  rewrite split_app_sep by done. f_equal. by apply IH.
Qed.

Lemma lookup_child_In t children n c :
  NoDup (map fst children) -> In (n, c) children ->
  lookup_child n (mkModule t children) = Some c.
Proof.
  unfold lookup_child. simpl.
  induction children as [|[n' c'] children IH]; [done|].
  simpl. intros Hnd [Heq|Hin].
  - injection Heq as -> ->. by rewrite String.eqb_refl.
  - apply NoDup_cons in Hnd as [Hnotin Hnd].
    destruct (String.eqb_spec n' n) as [->|Hne].
    + exfalso. apply Hnotin, list_elem_of_In, in_map_iff. by exists (n, c).
    + by apply IH.
Qed.

(** In a tree with well-formed names, following the path of a node with
    [getattr] arrives at the node, and the names on the path hold no dot. *)
Lemma getattr_each_node_at root path d :
  wf_names root -> node_at root path d ->
  getattr_each root path = Ok d /\
  Forall (fun n => PyStr.contains "." n = false) path.
Proof.
  intros Hwf Hr. induction Hr as [m n c Hin|m n c path d Hin _ Hr IH].
  - destruct Hwf as [t children Hnd Hdots Hsub]. simpl in Hin. split.
    + simpl. unfold getattr. by rewrite (lookup_child_In _ _ _ _ Hnd Hin).
    + constructor; [|done]. rewrite List.Forall_forall in Hdots.
      apply Hdots. apply in_map_iff. by exists (n, c).
  - destruct Hwf as [t children Hnd Hdots Hsub]. simpl in Hin.
    rewrite List.Forall_forall in Hsub, Hdots.
    destruct (IH (Hsub _ Hin)) as [Hget Hall]. split.
    + simpl. unfold getattr. by rewrite (lookup_child_In _ _ _ _ Hnd Hin).
    + constructor; [|done]. apply Hdots. apply in_map_iff. by exists (n, c).
Qed.

Lemma reach_path_nonempty descend m path d :
  reach descend m path d -> path <> [].
Proof. by destruct 1. Qed.

Lemma get_module_node_at root path d :
  wf_names root -> node_at root path d ->
  get_module root (String.concat "." path) = Ok d.
Proof.
  intros Hwf Hr. destruct (getattr_each_node_at _ _ _ Hwf Hr) as [Hget Hall].
  unfold get_module. rewrite split_concat; [done| |done].
  by eapply reach_path_nonempty.
Qed.

(** C9: in a module tree whose names are those of a tree of [_modules]
    dictionaries (distinct among the children of one module, without dots),
    looking up the name that either pass yielded with a module returns
    that module. *)
Theorem C9_lookup_of_yielded_name root name child :
  wf_names root ->
  In (name, child) (iter_trackable_modules_with_names root) \/
  In (name, child) (iter_quantisable_modules_with_names root) ->
  get_module root name = Ok child.
Proof.
  intros Hwf [Hin|Hin].
  - apply trackable_helper_In in Hin as (path & Hr & -> & _).
    apply get_module_node_at; [done|]. by eapply reach_any.
  - apply quantisable_helper_In in Hin as (path & Hr & -> & _).
    by apply get_module_node_at.
Qed.

(** ** Image metadata *)

Import Images.

Lemma ltb_false_le (a b : string) : String.ltb a b = false -> String.le b a.
Proof.
  unfold String.ltb, String.le, String.leb.
  rewrite (String.compare_antisym a b).
  by destruct (String.compare b a).
Qed.

Lemma ltb_true_le (a b : string) : String.ltb a b = true -> String.le a b.
Proof.
  unfold String.ltb, String.le, String.leb. by destruct (String.compare a b).
Qed.

Section SortFacts.
Context {A : Type} (key : A -> string).

Lemma insert_by_key_perm x l : insert_by_key key x l ≡ₚ x :: l.
Proof.
  induction l as [|y l IH]; [done|]. simpl.
  destruct (String.ltb (key y) (key x)); [|done].
  rewrite IH. apply Permutation_swap.
Qed.

Lemma sort_by_key_perm l : sort_by_key key l ≡ₚ l.
Proof.
  induction l as [|x l IH]; [done|]. simpl.
  by rewrite insert_by_key_perm, IH.
Qed.

Lemma insert_by_key_sorted x l :
  StronglySorted (key_le key) l ->
  StronglySorted (key_le key) (insert_by_key key x l).
Proof.
  induction 1 as [|y l Hs IH Hy]; simpl.
  - by repeat constructor.
  - destruct (String.ltb (key y) (key x)) eqn:Hlt.
    + constructor; [done|].
      rewrite insert_by_key_perm. constructor; [|done].
      by apply ltb_true_le.
    + apply ltb_false_le in Hlt. constructor; [by constructor|].
      constructor; [done|].
      eapply Forall_impl; [exact Hy|]. intros z Hz.
      unfold key_le in *. by etrans.
Qed.

Lemma sort_by_key_sorted l : StronglySorted (key_le key) (sort_by_key key l).
Proof.
  induction l as [|x l IH]; [constructor|]. by apply insert_by_key_sorted.
Qed.

(** Stability: the elements with one key keep their order. *)
Lemma insert_by_key_stable k x l :
  List.filter (fun y => String.eqb (key y) k) (insert_by_key key x l)
  = List.filter (fun y => String.eqb (key y) k) (x :: l).
Proof.
  induction l as [|y l IH]; [done|].
  cbn [insert_by_key]. destruct (String.ltb (key y) (key x)) eqn:Hlt; [|done].
  cbn [List.filter] in *. rewrite IH.
  destruct (String.eqb_spec (key y) k) as [Hy|Hy]; [|done].
  destruct (String.eqb_spec (key x) k) as [Hx|Hx]; [|done].
  exfalso. rewrite Hx, Hy in Hlt. unfold String.ltb in Hlt.
  pose proof (String.compare_antisym k k) as Hanti.
  by destruct (String.compare k k).
Qed.

Lemma sort_by_key_stable k l :
  List.filter (fun y => String.eqb (key y) k) (sort_by_key key l)
  = List.filter (fun y => String.eqb (key y) k) l.
Proof.
  induction l as [|x l IH]; [done|].
  cbn [sort_by_key foldr]. rewrite insert_by_key_stable.
  cbn [List.filter]. fold (sort_by_key key l). by rewrite IH.
Qed.

(** With pairwise distinct keys the sorted list depends on the elements
    only. *)
Lemma sort_by_key_unique l1 l2 :
  NoDup (map key l1) -> l1 ≡ₚ l2 ->
  sort_by_key key l1 = sort_by_key key l2.
Proof.
  intros Hnd Hperm.
  apply (StronglySorted_unique_strong (key_le key));
    [|apply sort_by_key_sorted..|by rewrite !sort_by_key_perm].
  intros x y Hx Hy Hxy Hyx.
  rewrite sort_by_key_perm in Hx. rewrite sort_by_key_perm, <- Hperm in Hy.
  assert (Hk : key x = key y) by by apply (anti_symm String.le).
  clear Hxy Hyx Hperm. induction l1 as [|z l1 IH]; [by inv Hx|].
  simpl in Hnd. apply NoDup_cons in Hnd as [Hz Hnd].
  apply elem_of_cons in Hx as [->|Hx], Hy as [->|Hy]; [done| | |by apply IH].
  - exfalso. apply Hz. rewrite Hk. apply list_elem_of_In, in_map.
    by apply list_elem_of_In.
  - exfalso. apply Hz. rewrite <- Hk. apply list_elem_of_In, in_map.
    by apply list_elem_of_In.
Qed.
End SortFacts.

(** Reading the lines in another order reads the same entries in that
    order. *)
Lemma read_entries_perm dir lines lines' entries :
  lines ≡ₚ lines' -> read_entries dir lines = Ok entries ->
  exists entries', read_entries dir lines' = Ok entries' /\ entries ≡ₚ entries'.
Proof.
  intros Hperm. revert entries.
  induction Hperm as [|l ls ls' Hp IH|l1 l2 ls|ls1 ls2 ls3 Hp1 IH1 Hp2 IH2];
    intros entries Hread.
  - exists entries. by split.
  - simpl in *. destruct (read_entry dir l) as [e|]; [|done]. simpl in *.
    destruct (read_entries dir ls) as [es|] eqn:Hes; [|done].
    simpl in Hread. injection Hread as <-.
    destruct (IH es eq_refl) as (es' & -> & Hes'). exists (e :: es').
    split; [done|]. by constructor.
  - simpl in *. destruct (read_entry dir l1) as [e1|]; simpl in *;
      destruct (read_entry dir l2) as [e2|]; simpl in *; try done.
    destruct (read_entries dir ls) as [es|]; [|done]. simpl in *.
    injection Hread as <-. exists (e1 :: e2 :: es). split; [done|].
    apply Permutation_swap.
  - destruct (IH1 _ Hread) as (es2 & Hes2 & Hp12).
    destruct (IH2 _ Hes2) as (es3 & Hes3 & Hp23).
    exists es3. split; [done|]. by etrans.
Qed.

(** What the loop reads: one entry per line, the joined path and the label
    of that line. *)
Lemma read_entries_each dir lines entries :
  read_entries (Some dir) lines = Ok entries ->
  Forall2 (fun l e => exists file_name label n,
               PyStr.split_ws l = [file_name; label] /\
               PyStr.int label = Some n /\
               e = (PyStr.path_join dir file_name, n))
          lines entries.
Proof.
  revert entries. induction lines as [|l lines IH]; intros entries Hread.
  - injection Hread as <-. constructor.
  - simpl in Hread.
    destruct (read_entry (Some dir) l) as [e|] eqn:He; [|done].
    destruct (read_entries (Some dir) lines) as [es|]; [|done].
    injection Hread as <-. constructor; [|by apply IH].
    unfold read_entry in He.
    destruct (PyStr.split_ws l) as [|file_name [|label [|? ?]]]; try done.
    destruct (PyStr.int label) as [n|] eqn:Hint; [|done].
    injection He as <-. by exists file_name, label, n.
Qed.

(** C4, as stated, fails: [labels_b] holds the lines of [labels_a] in
    another order, and [get_images] returns the two entries called
    [001.jpg] in the order of the file. *)
Lemma C4_line_order_shows :
  labels_b ≡ₚ labels_a /\
  get_images (one_file "labels.txt" labels_a)
             (Some "/data/val"%string) (Some "labels.txt"%string)
  <> get_images (one_file "labels.txt" labels_b)
             (Some "/data/val"%string) (Some "labels.txt"%string).
Proof.
  split; [apply Permutation_swap|]. vm_compute. discriminate.
Qed.

(** C4, amended: for a labels file whose lines all read as a file name and a
    label, with [entries] the pairs (joined path, label) of the lines,
    [get_images] returns [entries] rearranged in ascending order of the last
    path component, entries with the same last component in the order of
    their lines; when the last components are pairwise distinct the result
    does not depend on the order of the lines. *)
Theorem C4_get_images_sorted fs dir file lines entries :
  fs file = Some lines ->
  read_entries (Some dir) lines = Ok entries ->
  Forall2 (fun l e => exists file_name label n,
               PyStr.split_ws l = [file_name; label] /\
               PyStr.int label = Some n /\
               e = (PyStr.path_join dir file_name, n))
          lines entries /\
  exists data,
    get_images fs (Some dir) (Some file) = Ok data /\
    len data = length lines /\
    images_metadata data ≡ₚ entries /\
    StronglySorted (key_le sort_key) (images_metadata data) /\
    (forall k,
        List.filter (fun f => String.eqb (sort_key f) k) (images_metadata data)
        = List.filter (fun f => String.eqb (sort_key f) k) entries) /\
    (NoDup (map sort_key entries) ->
     forall fs' lines',
       fs' file = Some lines' -> lines' ≡ₚ lines ->
       get_images fs' (Some dir) (Some file) = Ok data).
Proof.
  intros Hfile Hread. split; [by apply read_entries_each|].
  unfold get_images. rewrite Hfile, Hread. simpl.
  eexists. split; [reflexivity|]. simpl.
  split; [|split; [|split; [|split]]].
  - rewrite (Permutation_length (sort_by_key_perm sort_key entries)).
    clear Hfile. revert entries Hread.
    induction lines as [|l lines IH]; intros entries Hread; simpl in *.
    + by injection Hread as <-.
    + destruct (read_entry (Some dir) l); [|done]. simpl in *.
      destruct (read_entries (Some dir) lines); [|done]. simpl in *.
      injection Hread as <-. simpl. f_equal. by apply IH.
  - apply sort_by_key_perm.
  - apply sort_by_key_sorted.
  - intros k. apply sort_by_key_stable.
  - intros Hnd fs' lines' Hfile' Hperm. rewrite Hfile'.
    symmetry in Hperm.
    destruct (read_entries_perm _ _ _ _ Hperm Hread) as (es' & -> & Hes').
    unfold mbind, Result_bind.
    by rewrite (sort_by_key_unique sort_key entries es').
Qed.

(** ** The store *)

Section StoreFacts.
Import Store.

Lemma read_only_ret {A} (a : A) : read_only (mret a).
Proof. done. Qed.

Lemma read_only_raise {A} e : read_only (@raise A e).
Proof. done. Qed.

Lemma read_only_read r : read_only (read r).
Proof. intros h. unfold read. by destruct (h !! r). Qed.

Lemma read_only_bind {A B} (m : Py A) (k : A -> Py B) :
  read_only m -> (forall a, read_only (k a)) -> read_only (m ≫= k).
Proof.
  intros Hm Hk h. unfold mbind, Py_bind. specialize (Hm h).
  destruct (m h) as [[a|e] h']; simpl in Hm; subst; [apply Hk|done].
Qed.

Lemma read_only_for_yield {A B} (items : list A) (body : A -> Py (list B)) :
  (forall x, read_only (body x)) -> read_only (for_yield items body).
Proof.
  intros Hbody. induction items as [|x items IH]; [done|].
  simpl. apply read_only_bind; [done|]. intros ys.
  apply read_only_bind; [done|]. intros zs. apply read_only_ret.
Qed.

Lemma read_only_type_of r : read_only (type_of r).
Proof.
  apply read_only_bind; [apply read_only_read|]. intros. apply read_only_ret.
Qed.

Lemma read_only_len_modules r : read_only (len_modules r).
Proof.
  apply read_only_bind; [apply read_only_read|]. intros. apply read_only_ret.
Qed.

Lemma read_only_named_children r : read_only (named_children r).
Proof.
  apply read_only_bind; [apply read_only_read|]. intros. apply read_only_ret.
Qed.

(** Neither pass writes to the store, whether it ends or raises. *)
Lemma trackable_read_only depth r parent :
  read_only (Store.iter_trackable_modules_helper_ depth r parent).
Proof.
  revert r parent. induction depth as [|depth IH]; intros r parent.
  - apply read_only_raise.
  - simpl. apply read_only_bind; [apply read_only_named_children|].
    intros children. apply read_only_for_yield. intros nc.
    apply read_only_bind; [apply read_only_type_of|]. intros ty.
    apply read_only_bind.
    { destruct (negb _); [apply IH|apply read_only_ret]. }
    intros below. apply read_only_bind; [apply read_only_len_modules|].
    intros n. apply read_only_bind; [apply read_only_type_of|].
    intros ty'. apply read_only_ret.
Qed.

Lemma quantisable_read_only depth r parent :
  read_only (Store.iter_quantisable_modules_helper_ depth r parent).
Proof.
  revert r parent. induction depth as [|depth IH]; intros r parent.
  - apply read_only_raise.
  - simpl. apply read_only_bind; [apply read_only_named_children|].
    intros children. apply read_only_for_yield. intros nc.
    apply read_only_bind; [apply IH|]. intros below.
    apply read_only_bind; [apply read_only_type_of|].
    intros ty. apply read_only_ret.
Qed.

Lemma bind_run {A B} (m : Py A) (k : A -> Py B) h a h' :
  m h = (Ok a, h') -> (m ≫= k) h = k a h'.
Proof. intros Hm. unfold mbind, Py_bind. by rewrite Hm. Qed.

Lemma skip_seen_nodup seen entries :
  NoDup (map snd entries) ->
  (forall r, r ∈ map snd entries -> r ∉ seen) ->
  skip_seen seen entries = entries.
Proof.
  revert seen. induction entries as [|[n r] entries IH]; [done|].
  intros seen Hnd Hseen. simpl in *.
  apply NoDup_cons in Hnd as [Hr Hnd].
  rewrite bool_decide_eq_false_2 by (apply Hseen; by left).
  f_equal. apply IH; [done|]. intros r' Hr'.
  rewrite not_elem_of_cons. split; [by intros ->|].
  apply Hseen. by right.
Qed.

(** What a pass reads of an object that stands for a subtree. *)
Lemma represents_reads h r m :
  represents h r m ->
  type_of r h = (Ok (mtype m), h) /\
  len_modules r h = (Ok (length (_modules m)), h) /\
  exists entries,
    named_children r h = (Ok entries, h) /\
    Forall2 (fun e nc => fst e = fst nc /\ represents h (snd e) (snd nc))
            entries (_modules m).
Proof.
  intros [r' o t children Hr Ht Hnd Hch].
  unfold type_of, len_modules, named_children, read, mbind, Py_bind.
  rewrite Hr. simpl. rewrite Ht, (Forall2_length _ _ _ Hch).
  split; [done|]. split; [done|]. exists (ob_modules o). split; [|done].
  rewrite skip_seen_nodup; [done..|]. intros ? _. apply not_elem_of_nil.
Qed.

Lemma for_yield_same h (entries : list (string * ref))
    (children : list (string * Module)) body tbody :
  Forall2 (fun e nc => exists ys,
               body e h = (Ok ys, h) /\ same_yields h ys (tbody nc))
          entries children ->
  exists ys, for_yield entries body h = (Ok ys, h) /\
             same_yields h ys (flat_map tbody children).
Proof.
  induction 1 as [|e nc entries children (ys & Hys & Hsame) _ IH].
  - exists []. split; [done|]. constructor.
  - destruct IH as (zs & Hzs & Hsame'). exists (ys ++ zs). split.
    + simpl. rewrite (bind_run _ _ _ _ _ Hys), (bind_run _ _ _ _ _ Hzs).
      done.
    + simpl. by apply Forall2_app.
Qed.

(** On a store that holds a tree, within the recursion limit, the
    trackable pass ends, and yields what it yields on the tree. *)
Lemma trackable_refines h m :
  forall depth r parent,
    represents h r m -> height m <= depth ->
    exists ys,
      Store.iter_trackable_modules_helper_ depth r parent h = (Ok ys, h) /\
      same_yields h ys (Net.iter_trackable_modules_helper_ m parent).
Proof.
  induction m as [t children IH] using Module_induction.
  intros depth r parent Hrep Hheight.
  destruct depth as [|depth]; [simpl in Hheight; lia|].
  destruct (represents_reads _ _ _ Hrep) as (_ & _ & entries & Hnc & Hch).
  cbn [Store.iter_trackable_modules_helper_].
  rewrite (bind_run _ _ _ _ _ Hnc).
  cbn [Net.iter_trackable_modules_helper_]. apply for_yield_same.
  simpl in Hch. rewrite List.Forall_forall in IH.
  assert (Hh : forall nc, In nc children -> height (snd nc) <= depth)
    by (intros; by eapply height_child).
  clear Hnc Hrep Hheight.
  induction Hch as [|e nc entries children [Hname Hrep] _ IHch];
    constructor.
  - destruct (represents_reads _ _ _ Hrep) as (Hty & Hlen & _).
    rewrite (bind_run _ _ _ _ _ Hty), Hname.
    destruct (negb (type_in (mtype (snd nc)) seq_leaf_types)) eqn:Hnf.
    + destruct (IH nc (or_introl eq_refl) depth (snd e)
                  (Some (full_name parent (fst nc))) Hrep
                  (Hh nc (or_introl eq_refl))) as (below & Hbelow & Hsame).
      rewrite (bind_run _ _ _ _ _ Hbelow), (bind_run _ _ _ _ _ Hlen),
        (bind_run _ _ _ _ _ Hty).
      eexists. split; [reflexivity|]. apply Forall2_app; [done|].
      unfold is_trackable_leaf. destruct (_ && _); by repeat constructor.
    + rewrite (bind_run (mret []) _ h [] h eq_refl).
      rewrite (bind_run _ _ _ _ _ Hlen), (bind_run _ _ _ _ _ Hty).
      eexists. split; [reflexivity|]. simpl.
      unfold is_trackable_leaf. destruct (_ && _); by repeat constructor.
  - apply IHch.
    + intros nc' Hin. apply IH. by right.
    + intros nc' Hin. apply Hh. by right.
Qed.

(** The same for the quantisable pass. *)
Lemma quantisable_refines h m :
  forall depth r parent,
    represents h r m -> height m <= depth ->
    exists ys,
      Store.iter_quantisable_modules_helper_ depth r parent h = (Ok ys, h) /\
      same_yields h ys (Net.iter_quantisable_modules_helper_ m parent).
Proof.
  induction m as [t children IH] using Module_induction.
  intros depth r parent Hrep Hheight.
  destruct depth as [|depth]; [simpl in Hheight; lia|].
  destruct (represents_reads _ _ _ Hrep) as (_ & _ & entries & Hnc & Hch).
  cbn [Store.iter_quantisable_modules_helper_].
  rewrite (bind_run _ _ _ _ _ Hnc).
  cbn [Net.iter_quantisable_modules_helper_]. apply for_yield_same.
  simpl in Hch. rewrite List.Forall_forall in IH.
  assert (Hh : forall nc, In nc children -> height (snd nc) <= depth)
    by (intros; by eapply height_child).
  clear Hnc Hrep Hheight.
  induction Hch as [|e nc entries children [Hname Hrep] _ IHch];
    constructor.
  - destruct (represents_reads _ _ _ Hrep) as (Hty & _ & _).
    rewrite Hname.
    destruct (IH nc (or_introl eq_refl) depth (snd e)
                (Some (full_name parent (fst nc))) Hrep
                (Hh nc (or_introl eq_refl))) as (below & Hbelow & Hsame).
    rewrite (bind_run _ _ _ _ _ Hbelow), (bind_run _ _ _ _ _ Hty).
    eexists. split; [reflexivity|]. apply Forall2_app; [done|].
    destruct (type_in _ _); by repeat constructor.
  - apply IHch.
    + intros nc' Hin. apply IH. by right.
    + intros nc' Hin. apply Hh. by right.
Qed.

End StoreFacts.

(** C7: neither pass changes the store, whatever the store, the starting
    object and the recursion limit, and whether the pass ends or raises; and
    on a store that holds a module tree, within the recursion limit, both
    passes run to completion, yield what they yield on the tree, and leave
    the store as it was. *)
Theorem C7_passes_only_read :
  (forall depth root (h : Store.Heap),
      snd (Store.iter_trackable_modules_with_names depth root h) = h /\
      snd (Store.iter_quantisable_modules_with_names depth root h) = h)
  /\
  (forall (h : Store.Heap) root m depth,
      Store.represents h root m -> height m <= depth ->
      exists ys zs,
        Store.iter_trackable_modules_with_names depth root h = (Ok ys, h) /\
        Store.same_yields h ys (Net.iter_trackable_modules_with_names m) /\
        Store.iter_quantisable_modules_with_names depth root h = (Ok zs, h) /\
        Store.same_yields h zs (Net.iter_quantisable_modules_with_names m)).
Proof.
  split.
  - intros depth root h. split.
    + apply trackable_read_only.
    + apply quantisable_read_only.
  - intros h root m depth Hrep Hheight.
    destruct (trackable_refines h m depth root None Hrep Hheight)
      as (ys & Hys & Hsame).
    destruct (quantisable_refines h m depth root None Hrep Hheight)
      as (zs & Hzs & Hsame').
    by exists ys, zs.
Qed.

(** *** Replacing a module *)

Section SetModuleFacts.
Import Store.




Lemma hasattr_run (h : Heap) r o s :
  h !! r = Some o ->
  hasattr r s h =
  (Ok (bool_decide (is_Some (lookup_entry s (ob_modules o)))), h).
Proof.
  intros Hr. unfold hasattr, read, mbind, Py_bind. by rewrite Hr.
Qed.

Lemma bind_raise {A B} (m : Py A) (k : A -> Py B) h e h' :
  m h = (Raise e, h') -> (m ≫= k) h = (Raise e, h').
Proof. intros Hm. unfold mbind, Py_bind. by rewrite Hm. Qed.


End SetModuleFacts.


(** *** Hooks *)

Section HookFacts.
Import Store.

Lemma register_forward_hook_run (h : Heap) r o hook :
  h !! r = Some o ->
  register_forward_hook r hook h =
  (Ok (), <[r := {| ob_type := ob_type o;
                    ob_modules := ob_modules o;
                    ob_forward_hooks := ob_forward_hooks o ++ [hook] |}]> h).
Proof.
  intros Hr. unfold register_forward_hook, read, write, mbind, Py_bind.
  by rewrite Hr.
Qed.

(** Registering a hook on a live object adds it at the end of the hooks
    of that object, and only there; every object stays live. *)
Lemma register_forward_hook_hooks (h : Heap) r hook :
  is_Some (h !! r) ->
  exists h',
    register_forward_hook r hook h = (Ok (), h') /\
    (forall r', hooks_of h' r' =
                hooks_of h r' ++ (if bool_decide (r = r') then [hook]
                                  else [])) /\
    (forall r', is_Some (h !! r') -> is_Some (h' !! r')).
Proof.
  intros [o Hr]. eexists. split; [by apply register_forward_hook_run|].
  split.
  - intros r'. unfold hooks_of. case_bool_decide as Heq.
    + subst r'. by rewrite lookup_insert_eq, Hr.
    + rewrite lookup_insert_ne by done. by rewrite app_nil_r.
  - intros r' Hr'. destruct (decide (r = r')) as [->|Hne].
    + rewrite lookup_insert_eq. by eexists.
    + by rewrite lookup_insert_ne.
Qed.

Lemma register_output_hooks_run layers :
  forall i (h : Heap),
    (forall r, r ∈ layers -> is_Some (h !! r)) ->
    exists h',
      register_output_hooks i layers h = (Ok (), h') /\
      (forall r, hooks_of h' r = hooks_of h r ++ output_hooks_on r i layers).
Proof.
  induction layers as [|layer layers IH]; intros i h Hlive.
  - exists h. split; [done|]. intros r. simpl. by rewrite app_nil_r.
  - destruct (register_forward_hook_hooks h layer
                (hist_tracker_output_hook (i + 1)))
      as (h1 & Hrun1 & Hhooks1 & Hlive1); [apply Hlive; by left|].
    destruct (IH (S i) h1) as (h2 & Hrun2 & Hhooks2).
    { intros r Hr. apply Hlive1, Hlive. by right. }
    exists h2. split.
    + simpl. by rewrite (bind_run _ _ _ _ _ Hrun1).
    + intros r. rewrite Hhooks2, Hhooks1. simpl. by rewrite <- app_assoc.
Qed.


Lemma same_yields_live (h : Heap) ys ts :
  same_yields h ys ts -> forall r, r ∈ map snd ys -> is_Some (h !! r).
Proof.
  induction 1 as [|e nc ys ts [_ Hrep] _ IH]; intros r Hr; simpl in Hr.
  - by apply elem_of_nil in Hr.
  - apply elem_of_cons in Hr as [->|Hr]; [|by apply IH].
    destruct Hrep as [r' o t children Hr' _ _ _]. by eexists.
Qed.

Lemma same_yields_snd (h : Heap) ys ts :
  same_yields h ys ts ->
  Forall2 (represents h) (map snd ys) (map snd ts).
Proof.
  induction 1 as [|e nc ys ts [_ Hrep] _ IH]; simpl; by constructor.
Qed.

End HookFacts.


(** ** The command line *)

Section CliFacts.
Import Store.


End CliFacts.


(** ** The properties on the sample networks *)

Lemma vgg_like_wf_names : wf_names vgg_like.
Proof.
  unfold vgg_like, relu.
  repeat (first [ constructor; simpl | compute_done | reflexivity ]).
Qed.

Lemma fused_store_represents :
  Store.represents Store.fused_store 0 fused_net.
Proof.
  unfold fused_net, relu.
  repeat (first [ eapply Store.represents_intro; simpl
                | reflexivity | compute_done | constructor; simpl
                | split ]).
Qed.


(** C3 on [vgg_like]: the linear layer of the classifier is yielded. *)
Lemma C3_quantisable_yields_witness :
  In ("classifier.0"%string, mkModule Linear [])
     (iter_quantisable_modules_helper_ vgg_like None).
Proof.
  apply (proj2 (proj1 C3_quantisable_yields vgg_like None "classifier.0"
                  (mkModule Linear []))).
  exists ["classifier"; "0"]%string. split; [|split; [reflexivity|by right]].
  eapply reach_below; [|reflexivity|apply reach_child].
  - simpl. right. right. by left.
  - simpl. by left.
Defined.

(** C4 on [labels_c]: the two entries come out by file name. *)
Lemma C4_get_images_sorted_witness :
  exists data,
    get_images (one_file "labels.txt" labels_c)
               (Some "/data/val/"%string) (Some "labels.txt"%string)
    = Ok data /\
    images_metadata data
    = [("/data/val/a.jpg"%string, 10%Z); ("/data/val/b.jpg"%string, 7%Z)].
Proof.
  destruct (C4_get_images_sorted (one_file "labels.txt" labels_c)
              "/data/val/" "labels.txt" labels_c
              [("/data/val/b.jpg"%string, 7%Z);
               ("/data/val/a.jpg"%string, 10%Z)]
              eq_refl eq_refl) as (_ & data & Hdata & _).
  exists data. split; [exact Hdata|].
  vm_compute in Hdata. by injection Hdata as <-.
Defined.


(** C7 on [fused_store]: both passes end and leave the store. *)
Lemma C7_passes_only_read_witness :
  exists ys zs,
    Store.iter_trackable_modules_with_names 3 0 Store.fused_store
    = (Ok ys, Store.fused_store) /\
    Store.iter_quantisable_modules_with_names 3 0 Store.fused_store
    = (Ok zs, Store.fused_store).
Proof.
  destruct (proj2 C7_passes_only_read Store.fused_store 0 fused_net 3
              fused_store_represents)
    as (ys & zs & Hys & _ & Hzs & _).
  - vm_compute. lia.
  - by exists ys, zs.
Defined.


(** C9 on [vgg_like]: the name [features.0] leads back to the
    convolution. *)
Lemma C9_lookup_of_yielded_name_witness :
  get_module vgg_like "features.0" = Ok (mkModule Conv2d []).
Proof.
  apply (C9_lookup_of_yielded_name vgg_like "features.0" (mkModule Conv2d [])
           vgg_like_wf_names).
  left. simpl. by left.
Defined.


(** Without a trackable module [modules[0]] raises, before any tracker or
    hook exists. *)
Lemma get_intermediate_no_trackable {Tensor : Type} (h : Store.Heap) net m depth :
  Store.represents h net m ->
  height m <= depth ->
  Net.iter_trackable_modules m = [] ->
  Store.get_intermediate_hooks (Tensor := Tensor) depth net h
  = (Raise IndexError, h).
Proof.
  intros Hrep Hheight Hnone.
  destruct (trackable_refines h m depth net None Hrep Hheight)
    as (ys & Hys & Hsame).
  apply same_yields_snd in Hsame.
  unfold Net.iter_trackable_modules in Hnone. rewrite Hnone in Hsame.
  apply Forall2_nil_inv_r in Hsame.
  unfold Store.get_intermediate_hooks, Store.iter_trackable_modules.
  rewrite (bind_run _ _ _ _ _
             (bind_run _ (fun ys => mret (map snd ys)) _ _ _ Hys)).
  by rewrite Hsame.
Qed.

(** After the set-up, [get_intermediate] feeds the trackers from the module
    calls of the forward passes and leaves the store as the set-up left
    it. *)
Lemma get_intermediate_run {Tensor : Type} (h : Store.Heap) net depth
    (calls : list (Store.Call (Tensor := Tensor))) modules hist_tracker h' :
  Store.get_intermediate_hooks depth net h
  = (Ok (modules, hist_tracker), h') ->
  Store.get_intermediate depth net calls h
  = (Store.forward_calls h' calls hist_tracker, h').
Proof.
  intros Hsetup. unfold Store.get_intermediate.
  by rewrite (bind_run _ _ _ _ _ Hsetup).
Qed.

(** * Further properties of the code *)

(** ** Dotted names and readable names *)

Lemma split_not_nil sep s : PyStr.split sep s <> [].
Proof.
  destruct s as [|c s]; [done|]. simpl.
  destruct (Ascii.eqb c sep); [done|]. by destruct (PyStr.split sep s).
Qed.

Lemma concat_split sep s :
  String.concat (String sep EmptyString) (PyStr.split sep s) = s.
Proof.
  induction s as [|c s IH]; [reflexivity|]. simpl.
  destruct (Ascii.eqb_spec c sep) as [->|Hne].
  - pose proof (split_not_nil sep s) as Hnil.
    destruct (PyStr.split sep s) as [|piece pieces]; [done|].
    simpl in *. by rewrite IH.
  - pose proof (split_not_nil sep s) as Hnil.
    destruct (PyStr.split sep s) as [|piece pieces]; [done|].
    destruct pieces as [|piece' pieces]; simpl in *; by rewrite <- IH.
Qed.

Lemma split_pieces_no_sep sep s :
  Forall (fun piece => PyStr.contains sep piece = false) (PyStr.split sep s).
Proof.
  induction s as [|c s IH]; [by repeat constructor|]. simpl.
  destruct (Ascii.eqb c sep) eqn:Hc; [by constructor|].
  pose proof (split_not_nil sep s) as Hnil.
  destruct (PyStr.split sep s) as [|piece pieces]; [done|].
  apply Forall_cons_iff in IH as [Hpiece Hpieces].
  constructor; [|done]. simpl. by rewrite Hc, Hpiece.
Qed.

(** X1: the components that [get_module] and [set_module] split a key into
    are never none, so that [tokens[-1]] exists; they hold no dot; and
    joined with dots they give the key back. *)
Theorem split_key_components key :
  PyStr.split "." key <> [] /\
  Forall (fun token => PyStr.contains "." token = false)
         (PyStr.split "." key) /\
  String.concat "." (PyStr.split "." key) = key.
Proof.
  split; [apply split_not_nil|]. split; [apply split_pieces_no_sep|].
  apply concat_split.
Qed.

Lemma replace_dot_no_dot s :
  PyStr.contains "." (PyStr.replace "." " " s) = false.
Proof.
  unfold PyStr.replace. induction s as [|c s IH]; [reflexivity|].
  cbn [PyStr.replace_from String.prefix].
  destruct (ascii_dec "." c) as [<-|Hne].
  - destruct s; simpl in *; exact IH.
  - simpl. rewrite IH.
    destruct (Ascii.eqb_spec c ".") as [->|_]; [done|reflexivity].
Qed.

(** Replacing by the empty string brings in no character. *)
Lemma replace_from_empty_chars old c s :
  forall skip,
    PyStr.contains c s = false ->
    PyStr.contains c (PyStr.replace_from old EmptyString skip s) = false.
Proof.
  induction s as [|x s IH]; intros skip Hc; [reflexivity|].
  simpl in Hc. apply orb_false_iff in Hc as [Hx Hs].
  cbn [PyStr.replace_from]. destruct skip as [|k]; [|by apply IH].
  destruct (String.prefix old (String x s)).
  - change (EmptyString +:+ ?t) with t. by apply IH.
  - simpl. by rewrite Hx, IH.
Qed.

(** X5: a readable name never holds a dot; for a network other than vgg11
    there is one readable name for each layer name, and for vgg11 there are
    eleven whatever the layer names are. *)
Theorem get_readable_layer_names_shape net_name layer_names :
  Forall (fun n => PyStr.contains "." n = false)
         (get_readable_layer_names net_name layer_names) /\
  (net_name <> "vgg11"%string ->
   length (get_readable_layer_names net_name layer_names)
   = length layer_names) /\
  (net_name = "vgg11"%string ->
   length (get_readable_layer_names net_name layer_names) = 11).
Proof.
  unfold get_readable_layer_names.
  destruct (String.eqb_spec net_name "vgg11") as [->|Hne].
  - split; [|split; [done|reflexivity]].
    repeat constructor.
  - split; [|split; [by rewrite length_map|done]].
    apply Forall_map, Forall_forall. intros n _.
    apply replace_from_empty_chars, replace_dot_no_dot.
Qed.

(** ** Reading the labels file *)

Lemma read_entry_reads dir l :
  reads_as_entry l -> exists e, read_entry (Some dir) l = Ok e.
Proof.
  intros (file_name & label & n & Hsplit & Hint).
  unfold read_entry. rewrite Hsplit, Hint. by eexists.
Qed.

Lemma read_entry_fails dir l :
  ~ reads_as_entry l -> read_entry (Some dir) l = Raise ValueError.
Proof.
  intros Hnot. unfold read_entry.
  destruct (PyStr.split_ws l) as [|file_name [|label [|? ?]]] eqn:Hsplit;
    try done.
  destruct (PyStr.int label) as [n|] eqn:Hint; [|done].
  exfalso. apply Hnot. by exists file_name, label, n.
Qed.

Lemma read_entries_all dir lines :
  Forall reads_as_entry lines ->
  exists entries, read_entries (Some dir) lines = Ok entries /\
                  length entries = length lines.
Proof.
  induction 1 as [|l lines Hl _ (entries & Hread & Hlen)].
  - by exists [].
  - destruct (read_entry_reads dir l Hl) as (e & He).
    exists (e :: entries). simpl. rewrite He, Hread. simpl.
    by rewrite Hlen.
Qed.

(** The labels file is always read to [ValueError] when a line is not an
    entry: the lines before it raise the same or are read. *)
Lemma read_entries_some_bad dir lines :
  Exists (fun l => ~ reads_as_entry l) lines ->
  read_entries (Some dir) lines = Raise ValueError.
Proof.
  induction 1 as [l lines Hbad|l lines _ IH]; simpl.
  - by rewrite (read_entry_fails dir l Hbad).
  - rewrite IH. unfold read_entry.
    destruct (PyStr.split_ws l) as [|? [|label [|? ?]]]; try done.
    by destruct (PyStr.int label).
Qed.

(** X2: with a directory and a labels file that opens, [get_images] returns
    a data set with one entry for each line when every line reads as a file
    name and an integer label, and raises [ValueError] when some line does
    not, an empty line included. *)
Theorem get_images_value_error fs dir file lines :
  fs file = Some lines ->
  (Forall reads_as_entry lines ->
   exists data, get_images fs (Some dir) (Some file) = Ok data /\
                len data = length lines) /\
  (Exists (fun l => ~ reads_as_entry l) lines ->
   get_images fs (Some dir) (Some file) = Raise ValueError).
Proof.
  intros Hfile. unfold get_images. rewrite Hfile. split.
  - intros Hall. destruct (read_entries_all dir lines Hall)
      as (entries & -> & Hlen).
    eexists. split; [reflexivity|]. simpl.
    by rewrite (Permutation_length (sort_by_key_perm sort_key entries)).
  - intros Hbad. by rewrite (read_entries_some_bad dir lines Hbad).
Qed.

(** X2 on a labels file with an empty last line. *)
Lemma get_images_value_error_witness :
  get_images (one_file "labels.txt" labels_blank_end)
             (Some "/data"%string) (Some "labels.txt"%string)
  = Raise ValueError.
Proof.
  apply (proj2 (get_images_value_error
                  (one_file "labels.txt" labels_blank_end)
                  "/data" "labels.txt" labels_blank_end eq_refl)).
  apply Exists_cons_tl, Exists_cons_hd.
  intros (file_name & label & n & Hsplit & _). discriminate Hsplit.
Defined.

(** *** The order does not depend on the directory *)

Lemma split_app_at_sep sep a b :
  PyStr.split sep (a +:+ String sep b) = PyStr.split sep a ++ PyStr.split sep b.
Proof.
  induction a as [|c a IH].
  - change (EmptyString +:+ String sep b) with (String sep b).
    simpl. by rewrite Ascii.eqb_refl.
  - change (String c a +:+ String sep b) with (String c (a +:+ String sep b)).
    simpl. rewrite IH. destruct (Ascii.eqb c sep); [done|].
    pose proof (split_not_nil sep a) as Hnil.
    by destruct (PyStr.split sep a).
Qed.

Lemma last_app_not_nil {A} (l1 l2 : list A) d :
  l2 <> [] -> List.last (l1 ++ l2) d = List.last l2 d.
Proof.
  intros Hne. induction l1 as [|x l1 IH]; [done|].
  simpl. rewrite IH. destruct (l1 ++ l2) eqn:Happ; [|done].
  apply app_eq_nil in Happ as [_ ->]. done.
Qed.

Lemma ends_with_app c s :
  PyStr.ends_with c s = true -> exists a, s = a +:+ String c EmptyString.
Proof.
  induction s as [|x s IH]; [done|]. simpl.
  destruct s as [|y s].
  - intros ->%Ascii.eqb_eq. by exists EmptyString.
  - intros Hend. destruct (IH Hend) as (a & ->). by exists (String x a).
Qed.

(** The last component of a joined path is the last component of the file
    name. *)
Lemma last_component_join dir file_name :
  List.last (PyStr.split "/" (PyStr.path_join dir file_name)) EmptyString
  = List.last (PyStr.split "/" file_name) EmptyString.
Proof.
  unfold PyStr.path_join.
  destruct (PyStr.starts_with "/" file_name); [done|].
  destruct (String.eqb_spec dir EmptyString) as [->|Hdir]; [done|]. simpl.
  destruct (PyStr.ends_with "/" dir) eqn:Hend.
  - apply ends_with_app in Hend as (a & ->).
    rewrite string_app_assoc.
    change (String "/" EmptyString +:+ file_name) with (String "/" file_name).
    rewrite split_app_at_sep. apply last_app_not_nil, split_not_nil.
  - change ("/" +:+ file_name)%string with (String "/" file_name).
    rewrite split_app_at_sep. apply last_app_not_nil, split_not_nil.
Qed.

Section SortRelated.
Context {A B : Type} (key1 : A -> string) (key2 : B -> string).
Context (R : A -> B -> Prop).
Context (same_key : forall a b, R a b -> key1 a = key2 b).

Lemma insert_by_key_related a b l1 l2 :
  R a b -> Forall2 R l1 l2 ->
  Forall2 R (insert_by_key key1 a l1) (insert_by_key key2 b l2).
Proof.
  intros Hab. induction 1 as [|x y l1 l2 Hxy Hl IH]; simpl.
  - by repeat constructor.
  - rewrite (same_key _ _ Hab), (same_key _ _ Hxy).
    destruct (String.ltb (key2 y) (key2 b)); by repeat constructor.
Qed.

Lemma sort_by_key_related l1 l2 :
  Forall2 R l1 l2 ->
  Forall2 R (sort_by_key key1 l1) (sort_by_key key2 l2).
Proof.
  induction 1 as [|x y l1 l2 Hxy Hl IH]; simpl; [constructor|].
  by apply insert_by_key_related.
Qed.
End SortRelated.

(** The entries read from the same lines with two directories. *)
Lemma read_entries_two_dirs dir1 dir2 lines entries1 entries2 :
  read_entries (Some dir1) lines = Ok entries1 ->
  read_entries (Some dir2) lines = Ok entries2 ->
  Forall2 (fun e1 e2 => exists file_name n,
               e1 = (PyStr.path_join dir1 file_name, n) /\
               e2 = (PyStr.path_join dir2 file_name, n))
          entries1 entries2.
Proof.
  revert entries1 entries2.
  induction lines as [|l lines IH]; intros entries1 entries2 H1 H2.
  - injection H1 as <-. injection H2 as <-. constructor.
  - simpl in H1, H2. unfold read_entry in H1, H2.
    destruct (PyStr.split_ws l) as [|file_name [|label [|? ?]]]; try done.
    destruct (PyStr.int label) as [n|]; [|done]. simpl in H1, H2.
    destruct (read_entries (Some dir1) lines) as [es1|]; [|done].
    destruct (read_entries (Some dir2) lines) as [es2|]; [|done].
    injection H1 as <-. injection H2 as <-.
    constructor; [by exists file_name, n|by apply IH].
Qed.

(** X3: the directory of the images changes the paths of the entries and
    nothing else: with two directories [get_images] returns the same file
    names with the same labels in the same order. *)
Theorem get_images_order_free_of_dir fs file dir1 dir2 data1 data2 :
  get_images fs (Some dir1) (Some file) = Ok data1 ->
  get_images fs (Some dir2) (Some file) = Ok data2 ->
  Forall2 (fun e1 e2 => exists file_name n,
               e1 = (PyStr.path_join dir1 file_name, n) /\
               e2 = (PyStr.path_join dir2 file_name, n))
          (images_metadata data1) (images_metadata data2).
Proof.
  unfold get_images. destruct (fs file) as [lines|]; [|done].
  destruct (read_entries (Some dir1) lines) as [es1|] eqn:H1; [|done].
  destruct (read_entries (Some dir2) lines) as [es2|] eqn:H2; [|done].
  intros [= <-] [= <-]. simpl.
  apply sort_by_key_related; [|by eapply read_entries_two_dirs].
  intros e1 e2 (file_name & n & -> & ->). unfold sort_key. simpl.
  by rewrite !last_component_join.
Qed.

(** X3 on [labels_a] with two directories. *)
Lemma get_images_order_free_of_dir_witness :
  exists data2,
    get_images (one_file "labels.txt" labels_a)
               (Some "elsewhere/"%string) (Some "labels.txt"%string)
    = Ok data2 /\
    Forall2 (fun e1 e2 => exists file_name n,
                 e1 = (PyStr.path_join "/data/val" file_name, n) /\
                 e2 = (PyStr.path_join "elsewhere/" file_name, n))
            [("/data/val/birds/000.jpg"%string, 2%Z);
             ("/data/val/cats/001.jpg"%string, 0%Z);
             ("/data/val/dogs/001.jpg"%string, 1%Z)]
            (images_metadata data2).
Proof.
  eexists. split; [reflexivity|].
  apply (get_images_order_free_of_dir (one_file "labels.txt" labels_a)
           "labels.txt" "/data/val" "elsewhere/"
           (CustomImageData_init _) (CustomImageData_init _)
           eq_refl eq_refl).
Defined.

(** *** The labels of [get_accuracy] and the data set of [get_images] *)

Lemma le_ltb_false (a b : string) : String.le a b -> String.ltb b a = false.
Proof.
  unfold String.ltb, String.le, String.leb.
  rewrite (String.compare_antisym a b).
  by destruct (String.compare b a).
Qed.

(** A list in the order of its keys is left as it is. *)
Lemma sort_by_key_sorted_id {A} (key : A -> string) l :
  StronglySorted (key_le key) l -> sort_by_key key l = l.
Proof.
  induction 1 as [|x l Hs IH Hx]; [done|].
  cbn [sort_by_key foldr]. fold (sort_by_key key l). rewrite IH.
  destruct l as [|y l]; [done|]. simpl.
  apply Forall_cons_iff in Hx as [Hxy _].
  by rewrite (le_ltb_false _ _ Hxy).
Qed.

Lemma read_labels_entries dir lines entries :
  read_entries (Some dir) lines = Ok entries ->
  read_labels lines = Ok (map snd entries).
Proof.
  revert entries. induction lines as [|l lines IH]; intros entries Hread.
  - by injection Hread as <-.
  - simpl in *. unfold read_entry in Hread.
    destruct (PyStr.split_ws l) as [|file_name [|label [|? ?]]]; try done.
    destruct (PyStr.int label) as [n|]; [|done]. simpl in *.
    destruct (read_entries (Some dir) lines) as [es|]; [|done].
    injection Hread as <-. by rewrite (IH es eq_refl).
Qed.

(** X4: on a labels file that [get_images] reads, [get_accuracy] reads the
    labels in the order of the lines; they are the labels of the data set of
    [get_images], in its order, when the lines are in ascending order of the
    file names. *)
Theorem get_accuracy_labels_match fs dir file lines entries :
  fs file = Some lines ->
  read_entries (Some dir) lines = Ok entries ->
  get_accuracy_labels fs file = Ok (map snd entries) /\
  (StronglySorted (key_le sort_key) entries ->
   exists data,
     get_images fs (Some dir) (Some file) = Ok data /\
     get_accuracy_labels fs file = Ok (map snd (images_metadata data))).
Proof.
  intros Hfile Hread. unfold get_accuracy_labels, get_images.
  rewrite Hfile, Hread, (read_labels_entries dir lines entries Hread).
  split; [done|]. intros Hsorted. eexists. split; [reflexivity|]. simpl.
  by rewrite (sort_by_key_sorted_id sort_key entries Hsorted).
Qed.

(** X4 on [labels_sorted]. *)
Lemma get_accuracy_labels_match_witness :
  get_accuracy_labels (one_file "labels.txt" labels_sorted) "labels.txt"
  = Ok [1%Z; 7%Z].
Proof.
  apply (proj1 (get_accuracy_labels_match
                  (one_file "labels.txt" labels_sorted) "/data" "labels.txt"
                  labels_sorted
                  [("/data/a.jpg"%string, 1%Z); ("/data/b.jpg"%string, 7%Z)]
                  eq_refl eq_refl)).
Defined.

(** ** The names of the layers are distinct *)

Lemma walk_path_head descend t children path d :
  In (path, d) (walk descend (mkModule t children)) ->
  exists n rest, path = n :: rest /\ n ∈ map fst children.
Proof.
  simpl. rewrite in_flat_map. intros ([n c] & Hnc & Hin). simpl in Hin.
  assert (Hn : n ∈ map fst children).
  { apply list_elem_of_In, in_map_iff. by exists (n, c). }
  apply in_app_or in Hin as [Hin|[[= <- <-]|[]]]; [|by exists n, []].
  destruct (descend c); [|done].
  apply in_map_iff in Hin as ([p' d'] & [= <- <-] & _). by exists n, p'.
Qed.

Lemma NoDup_filter_fst {A B} (f : A * B -> bool) (l : list (A * B)) :
  NoDup (map fst l) -> NoDup (map fst (List.filter f l)).
Proof.
  induction l as [|x l IH]; [done|]. simpl. intros Hnd.
  apply NoDup_cons in Hnd as [Hx Hnd]. destruct (f x); [|by apply IH].
  simpl. apply NoDup_cons. split; [|by apply IH].
  intros Hin. apply Hx. apply list_elem_of_In in Hin.
  apply in_map_iff in Hin as (y & Hy & Hin). apply filter_In in Hin as [Hin _].
  apply list_elem_of_In, in_map_iff. by exists y.
Qed.

(** In a tree with well-formed names no path is walked twice. *)
Lemma walk_paths_distinct descend m :
  wf_names m -> NoDup (map fst (walk descend m)).
Proof.
  induction m as [t children IH] using Module_induction.
  intros Hwf. inversion Hwf as [t' children' Hnd _ Hsub]; subst. clear Hwf.
  induction children as [|[n c] children IHc]; [constructor|].
  apply Forall_cons_iff in IH as [IHc0 IHrest].
  apply Forall_cons_iff in Hsub as [Hwfc Hsub].
  simpl in Hnd. apply NoDup_cons in Hnd as [Hn Hnd].
  specialize (IHc IHrest Hnd Hsub).
  change (walk descend (mkModule t ((n, c) :: children)))
    with (((if descend c
            then map (fun pd => (n :: fst pd, snd pd)) (walk descend c)
            else []) ++ [([n], c)])
          ++ walk descend (mkModule t children)).
  rewrite !map_app. apply NoDup_app. split; [|split; [|done]].
  - apply NoDup_app. split; [|split; [|by apply NoDup_singleton]].
    + destruct (descend c); [|constructor].
      rewrite map_map. simpl.
      change (map (fun x => n :: fst x) (walk descend c))
        with (map (fun x => (cons n) (fst x)) (walk descend c)).
      rewrite <- (map_map fst (cons n)).
      apply (NoDup_fmap_2 (cons n)). by apply IHc0.
    + intros path Hin Hsingle. simpl in Hsingle.
      apply list_elem_of_singleton in Hsingle as ->.
      destruct (descend c); [|by apply elem_of_nil in Hin].
      apply list_elem_of_In, in_map_iff in Hin as ([p d] & Heq & Hin).
      simpl in Heq. apply in_map_iff in Hin as (pd & [= <- <-] & Hin).
      injection Heq as Heq. by apply walk_path_nonempty in Hin.
  - intros path Hin Hin'.
    apply list_elem_of_In, in_map_iff in Hin' as ([p d] & <- & Hin').
    apply walk_path_head in Hin' as (n' & rest & -> & Hn').
    assert (n' = n) as ->; [|done].
    apply elem_of_app in Hin as [Hin|Hin].
    + destruct (descend c); [|by apply elem_of_nil in Hin].
      apply list_elem_of_In, in_map_iff in Hin as ([p d'] & Heq & Hin).
      simpl in Heq. apply in_map_iff in Hin as (pd & [= <- <-] & Hin).
      by injection Heq as <- _.
    + simpl in Hin. apply list_elem_of_singleton in Hin. by injection Hin.
Qed.

(** The paths of a tree with well-formed names are told apart by their
    dotted names. *)
Lemma walk_names_distinct descend (sel : list string * Module -> bool) m :
  wf_names m ->
  NoDup (map fst (map (fun pd => (String.concat "." (fst pd), snd pd))
                      (List.filter sel (walk descend m)))).
Proof.
  intros Hwf. rewrite map_map. simpl.
  rewrite <- (map_map fst (String.concat ".")).
  apply NoDup_fmap_2_strong;
    [|by apply NoDup_filter_fst, walk_paths_distinct].
  assert (Hpath : forall p, p ∈ map fst (List.filter sel (walk descend m)) ->
            PyStr.split "." (String.concat "." p) = p).
  { intros p Hp.
    apply list_elem_of_In, in_map_iff in Hp as ([p' d] & <- & Hin).
    apply filter_In in Hin as [Hin _]. simpl.
    apply split_concat; [by apply (walk_path_nonempty _ _ _ Hin)|].
    apply walk_reach, reach_any in Hin.
    by apply (getattr_each_node_at m p' d Hwf). }
  intros p q Hp Hq Heq.
  by rewrite <- (Hpath p Hp), <- (Hpath q Hq), Heq.
Qed.

(** X6: in a module tree with the names of [_modules] dictionaries, no pass
    yields a name twice: the dotted names identify the layers. *)
Theorem yielded_names_distinct root :
  wf_names root ->
  NoDup (map fst (iter_trackable_modules_with_names root)) /\
  NoDup (map fst (iter_quantisable_modules_with_names root)).
Proof.
  intros Hwf. unfold iter_trackable_modules_with_names,
    iter_quantisable_modules_with_names.
  rewrite trackable_helper_walk, quantisable_helper_walk.
  split; by apply walk_names_distinct.
Qed.

(** X6 on [vgg_like]. *)
Lemma yielded_names_distinct_witness :
  NoDup ["features.0"; "features.1"; "classifier.0"; "classifier.1"]%string.
Proof.
  exact (proj1 (yielded_names_distinct vgg_like vgg_like_wf_names)).
Defined.

(** ** Lookup and replacement on the store *)

Section StoreLookupFacts.
Import Store.


Lemma lookup_entry_In s entries c :
  lookup_entry s entries = Some c -> In (s, c) entries.
Proof.
  unfold lookup_entry. induction entries as [|[k v] entries IH]; [done|].
  simpl. destruct (String.eqb_spec k s) as [->|_].
  - intros [= <-]. by left.
  - intros Hfind. right. by apply IH.
Qed.

(** The lookup of a name among the entries of an object and among the
    children of the tree it stands for. *)
Lemma lookup_entry_child (h : Heap) s entries children :
  Forall2 (fun e nc => fst e = fst nc /\ represents h (snd e) (snd nc))
          entries children ->
  match find (fun nc : string * Module => String.eqb (fst nc) s) children with
  | Some nc => exists c, lookup_entry s entries = Some c /\
                         represents h c (snd nc) /\ In nc children
  | None => lookup_entry s entries = None
  end.
Proof.
  unfold lookup_entry.
  induction 1 as [|e nc entries children [Hname Hrep] _ IH]; [done|].
  simpl. rewrite Hname. destruct (String.eqb (fst nc) s).
  - exists (snd e). split; [done|]. split; [done|by left].
  - destruct (find _ children) as [nc'|]; [|done].
    destruct IH as (c & Hc & Hrepc & Hin). exists c.
    split; [done|]. split; [done|by right].
Qed.

Lemma getattr_represents (h : Heap) model m s :
  represents h model m ->
  match Net.getattr m s with
  | Ok d => exists c, Store.getattr model s h = (Ok c, h) /\
                      represents h c d /\ height d < height m
  | Raise e => Store.getattr model s h = (Raise e, h)
  end.
Proof.
  intros Hrep. inversion Hrep as [r o t children Hr Ht _ Hch]; subst.
  unfold Net.getattr, lookup_child, Store.getattr, read, mbind, Py_bind.
  rewrite Hr. cbn [_modules].
  pose proof (lookup_entry_child h s _ _ Hch) as Hlook.
  destruct (find _ children) as [nc|]; simpl.
  - destruct Hlook as (c & -> & Hrepc & Hin). exists c.
    split; [done|]. split; [done|].
    exact (height_lt_child (ob_type o) children nc Hin).
  - by rewrite Hlook.
Qed.

Lemma getattr_each_represents (h : Heap) tokens :
  forall model m,
    represents h model m ->
    match Net.getattr_each m tokens with
    | Ok d => exists r, Store.getattr_each model tokens h = (Ok r, h) /\
                        represents h r d /\ height d <= height m
    | Raise e => Store.getattr_each model tokens h = (Raise e, h)
    end.
Proof.
  induction tokens as [|s tokens IH]; intros model m Hrep.
  - simpl. by exists model.
  - simpl. pose proof (getattr_represents h model m s Hrep) as Hget.
    destruct (Net.getattr m s) as [d|e]; simpl.
    + destruct Hget as (c & Hc & Hrepc & Hlt).
      rewrite (bind_run _ _ _ _ _ Hc).
      specialize (IH c d Hrepc).
      destruct (Net.getattr_each d tokens) as [d'|e]; [|done].
      destruct IH as (r & Hr & Hrepr & Hle). exists r.
      split; [done|]. split; [done|lia].
    + by apply bind_raise.
Qed.

End StoreLookupFacts.


(** *** Replacing a module and looking it up again *)

Section SetModuleRoundTrip.
Import Store.









End SetModuleRoundTrip.



(** ** Tracked layers are not nested *)

Lemma child_by_name (t : ModType) (children : list (string * Module)) n c c' :
  NoDup (map fst children) ->
  In (n, c) children -> In (n, c') children -> c = c'.
Proof.
  intros Hnd Hc Hc'.
  pose proof (lookup_child_In t _ _ _ Hnd Hc) as H1.
  pose proof (lookup_child_In t _ _ _ Hnd Hc') as H2. congruence.
Qed.

(** In a tree with well-formed names, a path that goes on below a reached
    node goes through that node: the pass descends into it, and it has
    children. *)
Lemma reach_through descend m path d :
  wf_names m -> reach descend m path d ->
  forall s more d',
    reach descend m (path ++ s :: more) d' ->
    descend d = true /\ _modules d <> [].
Proof.
  intros Hwf Hr. induction Hr as [m n c Hin|m n c path d Hin Hd Hr IH];
    intros s more d' Hr'; destruct Hwf as [t children Hnd _ Hsub];
    simpl in Hin, Hr'.
  - inversion Hr' as [|m' n' c' path' d'' Hin' Hd' Hbelow]; subst.
    simpl in Hin'.
    rewrite (child_by_name t children n c c' Hnd Hin Hin').
    split; [done|]. inversion Hbelow as [m' n' c'' Hin''|m' n' c'' ? ? Hin''];
      subst; unfold named_children in Hin''; by destruct (_modules c').
  - inversion Hr' as [m' n' c' Hin' Heq
                     |m' n' c' path' d'' Hin' Hd' Hbelow]; subst.
    + by destruct path.
    + simpl in Hin'.
      rewrite <- (child_by_name t children n c c' Hnd Hin Hin') in Hbelow.
      rewrite List.Forall_forall in Hsub.
      by apply (IH (Hsub _ Hin) s more d').
Qed.

Lemma reach_names_no_dot descend m path d :
  wf_names m -> reach descend m path d ->
  Forall (fun n => PyStr.contains "." n = false) path.
Proof.
  intros Hwf Hr. apply reach_any in Hr.
  by destruct (getattr_each_node_at m path d Hwf Hr).
Qed.

(** X10: in a module tree with well-formed names, no layer that the
    trackable pass yields lies inside another one it yields: no yielded
    name is another yielded name followed by a dot and more. *)
Theorem trackable_layers_not_nested root name1 d1 name2 d2 :
  wf_names root ->
  In (name1, d1) (iter_trackable_modules_with_names root) ->
  In (name2, d2) (iter_trackable_modules_with_names root) ->
  forall rest, name2 <> name1 +:+ "." +:+ rest.
Proof.
  intros Hwf H1 H2 rest Heq.
  apply trackable_helper_In in H1 as (p1 & Hr1 & -> & Hleaf1 & _).
  apply trackable_helper_In in H2 as (p2 & Hr2 & -> & _).
  unfold path_name in Heq. apply (f_equal (PyStr.split ".")) in Heq.
  change ("." +:+ rest)%string with (String "." rest) in Heq.
  rewrite split_app_at_sep in Heq.
  rewrite !split_concat in Heq
    by eauto using reach_path_nonempty, reach_names_no_dot.
  pose proof (split_not_nil "." rest) as Hrest.
  destruct (PyStr.split "." rest) as [|s more]; [done|]. subst p2.
  destruct (reach_through _ _ _ _ Hwf Hr1 s more d2 Hr2) as [Hdesc Hch].
  destruct Hleaf1 as [Hnone|Hfused]; [done|].
  unfold not_fused in Hdesc. apply negb_true_iff in Hdesc.
  apply type_in_spec in Hfused. congruence.
Qed.

(** X10 on [fused_net]: the fused convolution is yielded, its contents
    [conv_relu1.0] are not. *)
Lemma trackable_layers_not_nested_witness :
  ~ In ("conv_relu1.0"%string, mkModule Conv2d [])
       (iter_trackable_modules_with_names fused_net).
Proof.
  intros Hin.
  assert (Hwf : wf_names fused_net).
  { unfold fused_net, relu.
    repeat (first [ constructor; simpl | compute_done | reflexivity ]). }
  assert (Hfused : In ("conv_relu1"%string,
                       mkModule ConvReLU2d
                         [("0", mkModule Conv2d []); ("1", relu)]%string)
                      (iter_trackable_modules_with_names fused_net))
    by (vm_compute; tauto).
  by apply (trackable_layers_not_nested fused_net _ _ _ _ Hwf Hfused Hin
              "0"%string).
Defined.

(** ** The hooks and the trackers of [get_intermediate] *)

Section TrackerFacts.
Import Store.
Context {Tensor : Type}.

Lemma only_adds_hooks_refl (h : Heap) : only_adds_hooks h h.
Proof. intros r. destruct (h !! r) as [o|]; [|done]. by exists o. Qed.

Lemma only_adds_hooks_trans (h1 h2 h3 : Heap) :
  only_adds_hooks h1 h2 -> only_adds_hooks h2 h3 -> only_adds_hooks h1 h3.
Proof.
  intros H12 H23 r. specialize (H12 r). specialize (H23 r).
  destruct (h1 !! r) as [o1|].
  - destruct H12 as (o2 & Hr2 & Ht2 & Hm2 & Hh2). rewrite Hr2 in H23.
    destruct H23 as (o3 & Hr3 & Ht3 & Hm3 & Hh3). exists o3.
    split; [done|]. split; [congruence|]. split; [congruence|].
    by etrans.
  - by rewrite H12 in H23.
Qed.

Lemma only_adds_hooks_read_only {A} (m : Py A) (h : Heap) :
  read_only m -> only_adds_hooks h (snd (m h)).
Proof. intros Hro. rewrite Hro. apply only_adds_hooks_refl. Qed.

Lemma only_adds_hooks_bind {A B} (m : Py A) (k : A -> Py B) :
  (forall h, only_adds_hooks h (snd (m h))) ->
  (forall a h, only_adds_hooks h (snd (k a h))) ->
  forall h, only_adds_hooks h (snd ((m ≫= k) h)).
Proof.
  intros Hm Hk h. unfold mbind, Py_bind. specialize (Hm h).
  destruct (m h) as [[a|e] h1]; simpl in Hm; [|done].
  by eapply only_adds_hooks_trans.
Qed.

Lemma register_forward_hook_only_adds r hook (h : Heap) :
  only_adds_hooks h (snd (register_forward_hook r hook h)).
Proof.
  unfold register_forward_hook, read, write, mbind, Py_bind.
  destruct (h !! r) as [o|] eqn:Hr; simpl; [|apply only_adds_hooks_refl].
  intros r'. destruct (decide (r = r')) as [Heq|Hne].
  - subst r'. rewrite Hr, lookup_insert_eq. eexists. split; [done|]. simpl.
    split; [done|]. split; [done|]. by apply prefix_app_r.
  - rewrite lookup_insert_ne by done. apply only_adds_hooks_refl.
Qed.

Lemma register_output_hooks_only_adds layers :
  forall i (h : Heap),
    only_adds_hooks h (snd (register_output_hooks i layers h)).
Proof.
  induction layers as [|layer layers IH]; intros i h;
    [apply only_adds_hooks_refl|].
  simpl. apply only_adds_hooks_bind; [|by intros].
  apply register_forward_hook_only_adds.
Qed.

Lemma represents_only_adds_hooks (h h' : Heap) m :
  only_adds_hooks h h' ->
  forall r, represents h r m -> represents h' r m.
Proof.
  intros Hadds. induction m as [t children IH] using Module_induction.
  intros r Hrep. inversion Hrep as [r0 o t0 c0 Hr Ht Hnd Hch]; subst.
  specialize (Hadds r) as Hr'. rewrite Hr in Hr'.
  destruct Hr' as (o' & Hr' & Ht' & Hm' & _).
  rewrite <- Ht'. apply (represents_intro h' r o'); [done..|by rewrite Hm'|].
  rewrite Hm'. clear Hrep Hr Hr' Hnd Hm'.
  induction Hch as [|e nc entries children [Hname Hrepc] _ IHch];
    [constructor|].
  apply Forall_cons_iff in IH as [IHnc IHrest].
  constructor; [|by apply IHch]. split; [done|]. by apply IHnc.
Qed.

Lemma hooks_only_adds (depth : nat) net (h : Heap) :
  only_adds_hooks h
    (snd (get_intermediate_hooks (Tensor := Tensor) depth net h)).
Proof.
  revert h. unfold get_intermediate_hooks.
  apply only_adds_hooks_bind.
  { intros h. apply only_adds_hooks_read_only.
    apply read_only_bind; [apply trackable_read_only|].
    intros ys. apply read_only_ret. }
  intros modules. apply only_adds_hooks_bind.
  { intros h. apply only_adds_hooks_read_only.
    destruct modules; [apply read_only_raise|apply read_only_ret]. }
  intros start_layer. apply only_adds_hooks_bind.
  { apply register_forward_hook_only_adds. }
  intros _. apply only_adds_hooks_bind.
  { apply register_output_hooks_only_adds. }
  intros _ h. apply only_adds_hooks_refl.
Qed.

(** X11: whatever its outcome, [get_intermediate] leaves the store with
    the objects it found, each with its type, its submodules and the hooks
    it had, possibly followed by new ones: hooks are added, and none is
    removed.  So a store that held a module tree holds the same tree
    afterwards. *)
Theorem get_intermediate_only_adds_hooks (depth : nat) net
    (calls : list (Call (Tensor := Tensor))) (h : Heap) :
  only_adds_hooks h (snd (get_intermediate depth net calls h)) /\
  (forall r m, represents h r m ->
               represents (snd (get_intermediate depth net calls h)) r m).
Proof.
  assert (Hadds : only_adds_hooks h (snd (get_intermediate depth net calls h))).
  { revert h. unfold get_intermediate. apply only_adds_hooks_bind.
    - apply hooks_only_adds.
    - intros setup h. apply only_adds_hooks_refl. }
  split; [done|]. intros r m. by apply represents_only_adds_hooks.
Qed.

(** *** What the trackers hold after the forward passes *)

Lemma run_hooks_fed hooks (input : list Tensor) output :
  (forall k, In (hist_tracker_input_hook k) hooks -> input <> []) ->
  forall trackers,
    exists trackers',
      run_hooks hooks input output trackers = Ok trackers' /\
      length trackers' = length trackers /\
      forall k, trackers' !! k
                = (fun t => t ++ fed k hooks input output) <$> trackers !! k.
Proof.
  induction hooks as [|hook hooks IH]; intros Hin trackers.
  - exists trackers. split; [done|]. split; [done|]. intros k. simpl.
    unfold HistogramTracker in *.
    destruct (trackers !! k); simpl; by rewrite ?app_nil_r.
  - assert (exists trackers1,
               run_hook hook input output trackers = Ok trackers1 /\
               length trackers1 = length trackers /\
               forall k, trackers1 !! k
                         = (fun t => t ++ fed k [hook] input output)
                             <$> trackers !! k)
      as (trackers1 & Hrun1 & Hlen1 & Hfed1).
    { destruct hook as [k'|k']; simpl.
      - destruct input as [|x xs]; [by destruct (Hin k'); [left|]|].
        eexists. split; [done|]. split; [apply length_alter|].
        intros k. rewrite list_lookup_alter.
        destruct (Nat.eqb_spec k' k) as [->|Hne].
        + rewrite decide_True by done. unfold update, HistogramTracker in *.
          destruct (trackers !! k); simpl; by rewrite ?app_nil_r.
        + rewrite decide_False by done. unfold HistogramTracker in *.
          destruct (trackers !! k); simpl; by rewrite ?app_nil_r.
      - eexists. split; [done|]. split; [apply length_alter|].
        intros k. rewrite list_lookup_alter.
        destruct (Nat.eqb_spec k' k) as [->|Hne].
        + rewrite decide_True by done. unfold update, HistogramTracker in *.
          destruct (trackers !! k); simpl; by rewrite ?app_nil_r.
        + rewrite decide_False by done. unfold HistogramTracker in *.
          destruct (trackers !! k); simpl; by rewrite ?app_nil_r. }
    destruct (IH (fun k Hk => Hin k (or_intror Hk)) trackers1)
      as (trackers' & Hrun & Hlen & Hfed).
    exists trackers'. split; [simpl; by rewrite Hrun1|].
    split; [congruence|]. intros k. rewrite Hfed, Hfed1.
    unfold HistogramTracker in *.
    destruct (trackers !! k); [|done]. simpl. f_equal.
    rewrite <- app_assoc. f_equal. simpl. by rewrite app_nil_r.
Qed.

(** The output hooks registered on the list of layers hand the output of a
    call of [r] to tracker [j] exactly when [r] is the layer at the index of
    that tracker. *)
Lemma fed_output_hooks r (input : list Tensor) output layers :
  forall i j,
    fed j (output_hooks_on r i layers) input output
    = if bool_decide (i < j /\ layers !! (j - i - 1) = Some r)
      then [output] else [].
Proof.
  induction layers as [|layer layers IH]; intros i j.
  - simpl. rewrite bool_decide_eq_false_2; [done|]. by intros [_ ?].
  - simpl. unfold fed in IH |- *. rewrite flat_map_app, IH.
    destruct (decide (j = i + 1)) as [->|Hj].
    + replace (i + 1 - i - 1) with 0 by lia. simpl.
      rewrite (bool_decide_eq_false_2 (S i < i + 1 /\ _)) by lia.
      rewrite app_nil_r. case_bool_decide as Hl.
      * subst layer. simpl. rewrite Nat.eqb_refl.
        by rewrite bool_decide_eq_true_2 by (split; [lia|done]).
      * simpl. rewrite bool_decide_eq_false_2; [done|].
        intros [_ [= ->]]. done.
    + assert (flat_map
                (fun hook =>
                   match hook with
                   | hist_tracker_input_hook k' =>
                     if Nat.eqb k' j then take 1 input else []
                   | hist_tracker_output_hook k' =>
                     if Nat.eqb k' j then [output] else []
                   end)
                (if bool_decide (layer = r)
                 then [hist_tracker_output_hook (i + 1)] else []) = [])
        as ->.
      { case_bool_decide; [|done]. simpl.
        destruct (Nat.eqb_spec (i + 1) j); [lia|done]. }
      simpl. destruct (decide (i < j)) as [Hlt|Hge].
      * replace (j - i - 1) with (S (j - S i - 1)) by lia. simpl.
        erewrite bool_decide_ext; [reflexivity|].
        split; intros [? ?]; (split; [lia|done]).
      * rewrite !bool_decide_eq_false_2; [done|lia|lia].
Qed.

Lemma fed_app k hooks1 hooks2 (input : list Tensor) output :
  fed k (hooks1 ++ hooks2) input output
  = fed k hooks1 input output ++ fed k hooks2 input output.
Proof. unfold fed. apply flat_map_app. Qed.

(** After the set-up on objects that had no hooks, during the forward
    passes: tracker 0 receives the first inputs of the calls of the first
    layer, tracker [j + 1] the outputs of the calls of layer [j]. *)
Lemma forward_calls_fed (h' : Heap) modules
    (calls : list (Call (Tensor := Tensor))) :
  (forall r, hooks_of h' r
             = (if bool_decide (head modules = Some r)
                then [hist_tracker_input_hook 0] else [])
               ++ output_hooks_on r 0 modules) ->
  (forall c, In c calls -> head modules = Some (call_module c) ->
             call_input c <> []) ->
  forall trackers,
    exists trackers',
      forward_calls h' calls trackers = Ok trackers' /\
      length trackers' = length trackers /\
      (forall m0, head modules = Some m0 ->
                  trackers' !! 0
                  = (fun t => t ++ first_inputs_to m0 calls)
                      <$> trackers !! 0) /\
      (forall j r, modules !! j = Some r ->
                   trackers' !! S j
                   = (fun t => t ++ outputs_of r calls) <$> trackers !! S j).
Proof.
  intros Hhooks. induction calls as [|c calls IH]; intros Hinput trackers.
  - exists trackers. split; [done|]. split; [done|].
    split; intros; simpl;
      by destruct (trackers !! _); simpl; rewrite ?app_nil_r.
  - destruct (run_hooks_fed (hooks_of h' (call_module c)) (call_input c)
                (call_output c)) with (trackers := trackers)
      as (trackers1 & Hrun1 & Hlen1 & Hfed1).
    { intros k Hk. apply Hinput; [by left|].
      rewrite Hhooks in Hk. apply in_app_or in Hk as [Hk|Hk].
      - by case_bool_decide.
      - exfalso. clear -Hk. revert Hk. generalize 0.
        induction modules as [|layer modules IHm]; intros i Hk; [done|].
        simpl in Hk. apply in_app_or in Hk as [Hk|Hk]; [|by eapply IHm].
        case_bool_decide; [|done]. by destruct Hk. }
    destruct (IH (fun c' Hc' => Hinput c' (or_intror Hc')) trackers1)
      as (trackers' & Hrun & Hlen & Hfirst & Hout).
    exists trackers'.
    split; [simpl; unfold call_hooks; by rewrite Hrun1|].
    split; [congruence|]. split.
    + intros m0 Hm0. rewrite (Hfirst m0 Hm0), Hfed1.
      destruct (trackers !! 0); [|done]. simpl. f_equal.
      rewrite <- app_assoc. f_equal. f_equal.
      rewrite Hhooks, fed_app, fed_output_hooks.
      rewrite (bool_decide_eq_false_2 (0 < 0 /\ _)) by lia.
      rewrite app_nil_r, Hm0.
      do 2 case_bool_decide; simplify_eq; try done.
      simpl. by rewrite app_nil_r.
    + intros j r Hj. rewrite (Hout j r Hj), Hfed1.
      destruct (trackers !! S j); [|done]. simpl. f_equal.
      rewrite <- app_assoc. f_equal. f_equal.
      rewrite Hhooks, fed_app, fed_output_hooks.
      replace (S j - 0 - 1) with j by lia.
      assert (fed (S j)
                (if bool_decide (head modules = Some (call_module c))
                 then [hist_tracker_input_hook 0] else [])
                (call_input c) (call_output c) = []) as ->
        by by case_bool_decide.
      simpl. rewrite Hj. do 2 case_bool_decide; try done.
      * destruct H as [_ [= ->]]. done.
      * exfalso. apply H. split; [lia|congruence].
Qed.

(** The hooks after the set-up, on a store whose objects had none. *)
Lemma get_intermediate_hooks_fresh (h : Heap) net m depth :
  represents h net m ->
  height m <= depth ->
  Net.iter_trackable_modules m <> [] ->
  (forall r, hooks_of h r = []) ->
  exists modules h',
    get_intermediate_hooks (Tensor := Tensor) depth net h
    = (Ok (modules, replicate (1 + length modules) []), h') /\
    Forall2 (represents h) modules (Net.iter_trackable_modules m) /\
    forall r, hooks_of h' r
              = (if bool_decide (head modules = Some r)
                 then [hist_tracker_input_hook 0] else [])
                ++ output_hooks_on r 0 modules.
Proof.
  intros Hrep Hheight Hne Hfresh.
  destruct (trackable_refines h m depth net None Hrep Hheight)
    as (ys & Hys & Hsame).
  assert (Hmods : Forall2 (represents h) (map snd ys)
                          (Net.iter_trackable_modules m))
    by by apply same_yields_snd.
  assert (Hlive := same_yields_live h ys _ Hsame).
  destruct (map snd ys) as [|m0 rest] eqn:Hmodules.
  { apply Forall2_nil_inv_l in Hmods. done. }
  destruct (register_forward_hook_hooks h m0 (hist_tracker_input_hook 0))
    as (h1 & Hrun1 & Hhooks1 & Hlive1); [apply Hlive; by left|].
  destruct (register_output_hooks_run (m0 :: rest) 0 h1)
    as (h2 & Hrun2 & Hhooks2); [by intros r Hr; apply Hlive1, Hlive|].
  exists (m0 :: rest), h2. split; [|split; [done|]].
  - unfold get_intermediate_hooks, Store.iter_trackable_modules.
    rewrite (bind_run _ _ _ _ _
               (bind_run _ (fun ys => mret (map snd ys)) _ _ _ Hys)).
    rewrite Hmodules.
    rewrite (bind_run (mret m0) _ h m0 h eq_refl).
    rewrite (bind_run _ _ _ _ _ Hrun1), (bind_run _ _ _ _ _ Hrun2).
    done.
  - intros r. rewrite Hhooks2, Hhooks1, Hfresh. simpl.
    do 2 f_equal. by repeat case_bool_decide; simplify_eq.
Qed.

(** X12: on a store that holds a module tree with at least one trackable
    module, whose objects have no hooks yet, within the recursion limit,
    when every call of a module has a positional input:
    [get_intermediate] ends with one tracker more than there are trackable
    modules; tracker 0 has been updated with the first input of every call
    of the first trackable module, and tracker [j + 1] with the output of
    every call of the [j]-th trackable module, in the order of the calls;
    the calls of other modules reach no tracker. *)
Theorem get_intermediate_trackers (h : Heap) net m depth
    (calls : list (Call (Tensor := Tensor))) :
  represents h net m ->
  height m <= depth ->
  Net.iter_trackable_modules m <> [] ->
  (forall r, hooks_of h r = []) ->
  (forall c, In c calls -> call_input c <> []) ->
  exists modules trackers h',
    fst (Store.iter_trackable_modules depth net h) = Ok modules /\
    get_intermediate depth net calls h = (Ok trackers, h') /\
    length trackers = 1 + length modules /\
    (forall m0, head modules = Some m0 ->
                trackers !! 0 = Some (first_inputs_to m0 calls)) /\
    (forall j r, modules !! j = Some r ->
                 trackers !! S j = Some (outputs_of r calls)).
Proof.
  intros Hrep Hheight Hne Hfresh Hinput.
  destruct (get_intermediate_hooks_fresh h net m depth Hrep Hheight Hne Hfresh)
    as (modules & h' & Hsetup & _ & Hhooks).
  destruct (forward_calls_fed h' modules calls Hhooks
              (fun c Hc _ => Hinput c Hc)
              (replicate (1 + length modules) []))
    as (trackers & Hrun & Hlen & Hfirst & Hout).
  exists modules, trackers, h'. split; [|split; [|split; [|split]]].
  - unfold get_intermediate_hooks in Hsetup.
    unfold mbind at 1, Py_bind at 1 in Hsetup.
    destruct (Store.iter_trackable_modules depth net h)
      as [[modules'|e] h0]; [|done].
    simpl. f_equal. destruct modules' as [|m0 rest]; [done|].
    unfold mbind, Py_bind, mret, Py_ret in Hsetup.
    destruct (register_forward_hook m0 _ h0) as [[[]|e] h1]; [|done].
    destruct (register_output_hooks 0 (m0 :: rest) h1) as [[[]|e] h2];
      [|done].
    by injection Hsetup as -> _.
  - unfold get_intermediate. rewrite (bind_run _ _ _ _ _ Hsetup).
    unfold with_store. cbn [snd]. by rewrite Hrun.
  - by rewrite Hlen, length_replicate.
  - intros m0 Hm0. rewrite (Hfirst m0 Hm0).
    by rewrite lookup_replicate_2 by lia.
  - intros j r Hj. rewrite (Hout j r Hj).
    apply lookup_lt_Some in Hj.
    by rewrite lookup_replicate_2 by lia.
Qed.

(** X13: on a store that holds a module tree without a trackable module
    below the root, [get_intermediate] raises [IndexError] at [modules[0]]
    and leaves the store as it was: no hook is registered and no forward
    pass is made. *)
Theorem get_intermediate_index_error (h : Heap) net m depth
    (calls : list (Call (Tensor := Tensor))) :
  represents h net m ->
  height m <= depth ->
  Net.iter_trackable_modules m = [] ->
  get_intermediate depth net calls h = (Raise IndexError, h).
Proof.
  intros Hrep Hheight Hnone.
  destruct (trackable_refines h m depth net None Hrep Hheight)
    as (ys & Hys & Hsame).
  apply same_yields_snd in Hsame.
  unfold Net.iter_trackable_modules in Hnone. rewrite Hnone in Hsame.
  apply Forall2_nil_inv_r in Hsame.
  unfold get_intermediate. apply bind_raise.
  unfold get_intermediate_hooks, Store.iter_trackable_modules.
  rewrite (bind_run _ _ _ _ _
             (bind_run _ (fun ys => mret (map snd ys)) _ _ _ Hys)).
  by rewrite Hsame.
Qed.
End TrackerFacts.

Lemma fused_store_no_hooks r : Store.hooks_of Store.fused_store r = [].
Proof.
  unfold Store.hooks_of.
  destruct (Store.fused_store !! r) as [o|] eqn:Hr; [|done].
  assert (Hall : map_Forall (fun _ o => Store.ob_forward_hooks o = [])
                            Store.fused_store).
  { unfold Store.fused_store. simpl.
    repeat (apply map_Forall_insert_2; [done|]). apply map_Forall_empty. }
  by apply (Hall r o).
Qed.

(** X12 on [fused_store]: two calls of the fused convolution, one of the
    convolution inside it, one of the linear layer. *)
Lemma get_intermediate_trackers_witness :
  exists trackers,
    fst (Store.get_intermediate (Tensor := nat) 3 0
           [Store.mkCall 1 [10] 11; Store.mkCall 2 [10] 12;
            Store.mkCall 4 [11] 13; Store.mkCall 1 [20] 21]
           Store.fused_store) = Ok trackers /\
    trackers !! 0 = Some [10; 20] /\
    trackers !! 1 = Some [11; 21] /\
    trackers !! 2 = Some [13].
Proof.
  destruct (get_intermediate_trackers (Tensor := nat) Store.fused_store 0
              fused_net 3
              [Store.mkCall 1 [10] 11; Store.mkCall 2 [10] 12;
               Store.mkCall 4 [11] 13; Store.mkCall 1 [20] 21]
              fused_store_represents)
    as (modules & trackers & h' & Hmods & Hrun & _ & Hfirst & Hout).
  - vm_compute. lia.
  - discriminate.
  - apply fused_store_no_hooks.
  - intros c Hc. simpl in Hc.
    destruct Hc as [<-|[<-|[<-|[<-|[]]]]]; discriminate.
  - assert (modules = [1; 4]) as ->
      by (vm_compute in Hmods; by injection Hmods).
    exists trackers. rewrite Hrun. split; [done|].
    split; [exact (Hfirst 1 eq_refl)|].
    split; [exact (Hout 0 1 eq_refl)|exact (Hout 1 4 eq_refl)].
Defined.

Lemma bare_store_represents : Store.represents Store.bare_store 0 bare_linear.
Proof.
  unfold bare_linear.
  eapply Store.represents_intro; [reflexivity|reflexivity|constructor|].
  constructor.
Qed.

(** X13 on a network that is one linear layer. *)
Lemma get_intermediate_index_error_witness :
  Store.get_intermediate (Tensor := nat) 1 0 [Store.mkCall 0 [10] 11]
    Store.bare_store
  = (Raise IndexError, Store.bare_store).
Proof.
  apply (get_intermediate_index_error (Tensor := nat) Store.bare_store 0
           bare_linear 1 _ bare_store_represents).
  - vm_compute. lia.
  - reflexivity.
Defined.

(** ** What [print-net] prints *)

Section PrintNet.
Import Store.
Context {QuantisableModule Preds : Type}.
Variables
  (getenv : string -> option string)
  (fs : FileSystem)
  (depth : nat)
  (get_net : string -> Py QuantisableModule)
  (CONFIG_SETS : string -> string -> Result (list (string * string)))
  (net_get_net : QuantisableModule -> ref)
  (test_quant : QuantisableModule -> string -> Cli.ImageGen ->
                string -> string -> option bool -> Py unit)
  (predict_batches : QuantisableModule -> Cli.ImageGen -> Py (list Preds))
  (save_predictions : string -> list Preds -> Py unit).

(** One line per yielded pair: the name and the type of the module. *)
Lemma print_layers_same (h : Heap) ys ts :
  same_yields h ys ts ->
  Cli.print_layers ys h
  = (Ok (map (fun nd => Cli.printed_layer (fst nd) (mtype (snd nd))) ts), h).
Proof.
  induction 1 as [|[name r] [name' d] ys ts [Hname Hrep] _ IH]; [done|].
  simpl in Hname, Hrep. subst name'. simpl.
  destruct (represents_reads _ _ _ Hrep) as (Htype & _).
  by rewrite (bind_run _ _ _ _ _ Htype), (bind_run _ _ _ _ _ IH).
Qed.

(** X14: when [get_net] returns a network whose module tree the store
    holds, within the recursion limit, and the labels file loads,
    [print-net] leaves the store as [get_net] left it and prints the
    network, then under [-- Layers to track:] one line with the name and
    the type of every module of the trackable pass, then under
    [-- Layers to quantise:] one line for every module of the quantisable
    pass, each in the order of the pass. *)
Theorem main_print_net args (h h1 : Heap) net data m :
  get_net (Cli.net_name args) h = (Ok net, h1) ->
  Cli.which args = Some "print-net"%string ->
  get_images fs (getenv "VAL_IMAGES"%string) (getenv "VAL_SUBSET_LIST"%string)
  = Ok data ->
  represents h1 (net_get_net net) m ->
  height m <= depth ->
  Cli.main getenv fs depth get_net CONFIG_SETS net_get_net test_quant
           predict_batches save_predictions args h
  = (Ok ([Cli.printed_net (net_get_net net);
          Cli.printed_text "-- Layers to track:"]
         ++ map (fun nd => Cli.printed_layer (fst nd) (mtype (snd nd)))
                (Net.iter_trackable_modules_with_names m)
         ++ [Cli.printed_text "-- Layers to quantise:"]
         ++ map (fun nd => Cli.printed_layer (fst nd) (mtype (snd nd)))
                (Net.iter_quantisable_modules_with_names m)),
     h1).
Proof.
  intros Hnet Hwhich Himages Hrep Hheight.
  destruct (trackable_refines h1 m depth _ None Hrep Hheight)
    as (ys & Hys & Hsame_ys).
  destruct (quantisable_refines h1 m depth _ None Hrep Hheight)
    as (zs & Hzs & Hsame_zs).
  unfold Cli.main. rewrite (bind_run _ _ _ _ _ Hnet), Hwhich.
  rewrite bool_decide_eq_false_2 by done.
  unfold Cli.call_get_images.
  rewrite (bind_run (with_store _) _ h1 data h1)
    by (unfold with_store; by rewrite Himages).
  do 3 rewrite bool_decide_eq_false_2 by done.
  rewrite bool_decide_eq_true_2 by done.
  unfold Store.iter_trackable_modules_with_names,
    Store.iter_quantisable_modules_with_names.
  rewrite (bind_run _ _ _ _ _ Hys).
  rewrite (bind_run _ _ _ _ _ (print_layers_same h1 ys _ Hsame_ys)).
  rewrite (bind_run _ _ _ _ _ Hzs).
  rewrite (bind_run _ _ _ _ _ (print_layers_same h1 zs _ Hsame_zs)).
  done.
Qed.
End PrintNet.

(** X14 on [fused_store]. *)
Lemma main_print_net_witness :
  Cli.main (QuantisableModule := nat) (Preds := nat)
    (fun v => Some v) (one_file "VAL_SUBSET_LIST" labels_sorted) 3
    (fun _ => mret 0) (fun _ _ => Ok []) (fun net => net)
    (fun _ _ _ _ _ _ => mret ()) (fun _ _ => mret []) (fun _ _ => mret ())
    (Cli.mkArgs "fused" (Some "print-net"%string) EmptyString None
                EmptyString EmptyString)
    Store.fused_store
  = (Ok [Cli.printed_net 0;
         Cli.printed_text "-- Layers to track:";
         Cli.printed_layer "conv_relu1" ConvReLU2d;
         Cli.printed_layer "fc" Linear;
         Cli.printed_text "-- Layers to quantise:";
         Cli.printed_layer "conv_relu1.0" Conv2d;
         Cli.printed_layer "fc" Linear],
     Store.fused_store).
Proof.
  eapply (main_print_net (QuantisableModule := nat) (Preds := nat)
            (fun v => Some v) (one_file "VAL_SUBSET_LIST" labels_sorted) 3
            (fun _ => mret 0) (fun _ _ => Ok []) (fun net => net)
            (fun _ _ _ _ _ _ => mret ()) (fun _ _ => mret [])
            (fun _ _ => mret ())
            (Cli.mkArgs "fused" (Some "print-net"%string) EmptyString None
                        EmptyString EmptyString)
            Store.fused_store Store.fused_store 0 _ fused_net).
  - reflexivity.
  - reflexivity.
  - reflexivity.
  - apply fused_store_represents.
  - vm_compute. lia.
Defined.

(** ** Lookup and replacement at the names of the passes *)





Lemma net_getattr_each_app tokens1 tokens2 :
  forall m,
    Net.getattr_each m (tokens1 ++ tokens2)
    = c ← Net.getattr_each m tokens1; Net.getattr_each c tokens2.
Proof.
  induction tokens1 as [|s tokens1 IH]; intros m; [done|].
  simpl. destruct (Net.getattr m s) as [c|e]; [|done]. apply IH.
Qed.

(** X16: on a store that holds a module tree with well-formed names,
    [set_module] returns at every name that a pass yields: the components
    before the last lead to the parent, which has the last component as an
    attribute. *)
Theorem set_module_at_yielded_name (h : Store.Heap) model root name child
    module :
  Store.represents h model root ->
  wf_names root ->
  In (name, child) (iter_trackable_modules_with_names root)
  \/ In (name, child) (iter_quantisable_modules_with_names root) ->
  exists h', Store.set_module model name module h = (Ok (), h').
Proof.
  intros Hrep Hwf Hin.
  assert (exists path, node_at root path child /\ name = String.concat "." path)
    as (path & Hr & ->).
  { destruct Hin as [Hin|Hin].
    - apply trackable_helper_In in Hin as (path & Hr & -> & _).
      exists path. split; [by eapply reach_any|done].
    - apply quantisable_helper_In in Hin as (path & Hr & -> & _).
      by exists path. }
  destruct (getattr_each_node_at root path child Hwf Hr) as [Hget Hdots].
  pose proof (reach_path_nonempty _ _ _ _ Hr) as Hne.
  unfold Store.set_module. rewrite (split_concat path Hne Hdots).
  rewrite (app_removelast_last EmptyString Hne), net_getattr_each_app in Hget.
  pose proof (getattr_each_represents h (removelast path) model root Hrep)
    as Hres.
  destruct (Net.getattr_each root (removelast path)) as [parent|e]; [|done].
  destruct Hres as (P & Hres & HrepP & _). simpl in Hget.
  rewrite (bind_run _ _ _ _ _ Hres).
  inversion HrepP as [r o t children HP Ht _ Hch]; subst.
  rewrite (bind_run _ _ _ _ _ (hasattr_run h P o _ HP)).
  pose proof (lookup_entry_child h (List.last path EmptyString) _ _ Hch)
    as Hlook.
  unfold Net.getattr, lookup_child in Hget. simpl in Hget.
  destruct (find _ children) as [nc|]; [|done].
  destruct Hlook as (c & Hc & _).
  rewrite bool_decide_eq_true_2 by (by rewrite Hc). simpl.
  unfold Store.setattr, Store.read, Store.write, mbind, Store.Py_bind.
  rewrite HP. by eexists.
Qed.

(** X16 on [fused_store]: the convolution inside the fused module, which
    the quantisable pass yields, is replaced by the module 5. *)
Lemma set_module_at_yielded_name_witness :
  exists h',
    Store.set_module 0 "conv_relu1.0" 5 Store.fused_store = (Ok (), h').
Proof.
  apply (set_module_at_yielded_name Store.fused_store 0 fused_net
           "conv_relu1.0" (mkModule Conv2d []) 5 fused_store_represents).
  - unfold fused_net, relu.
    repeat (first [ constructor; simpl | compute_done | reflexivity ]).
  - right. simpl. by left.
Defined.
